(** * remoteconfig: the reflective validation engine of go-remote-config

    A shallow embedding of [remoteconfig.go].  The Go code walks an
    [interface{}] value with package [reflect]; here the value graph is an
    inductive tree that records exactly what the code asks of [reflect]:
    the kind of every node, the type names it prints, nilness, the struct
    tags, and what a [Validate] method answers.  Handlers return a Go
    [error] (nil or a message) or panic; the model adds the log of what
    a run did: dispatcher entries, calls of user [Validate] methods and
    the line [handleArraySlice] prints.

    What the model takes for granted: a value graph is a finite tree (a
    decoded JSON document has no pointer cycle); every key [MapKeys]
    returns is found again by [MapIndex]; a [Validate] method is summed up
    by what it answers; the text [fmt.Printf] writes is not spelled out,
    only that the line is written and for which value. *)

From Stdlib Require Import List String Ascii ZArith Bool Lia.
From Stdlib Require Import Numbers.DecimalString.
From Stdlib Require Import Sorting.Permutation.
Import ListNotations.
Open Scope string_scope.
Open Scope list_scope.

(** ** Package reflect: kinds *)

Module reflect.

(** [reflect.Kind], in the order of the Go declaration. *)
Inductive Kind : Type :=
| Invalid | Bool | Int | Int8 | Int16 | Int32 | Int64
| Uint | Uint8 | Uint16 | Uint32 | Uint64 | Uintptr
| Float32 | Float64 | Complex64 | Complex128
| Array | Chan | Func | Interface | Map | Ptr | Slice | String | Struct
| UnsafePointer.

(** The kinds for which the dispatcher has no case: every kind a concrete
    value can have other than pointer, struct, slice, array, map, string. *)
Inductive Leaf : Type :=
| LBool | LInt | LInt8 | LInt16 | LInt32 | LInt64
| LUint | LUint8 | LUint16 | LUint32 | LUint64 | LUintptr
| LFloat32 | LFloat64 | LComplex64 | LComplex128
| LChan | LFunc | LUnsafePointer.

Definition leafKind (l : Leaf) : Kind :=
  match l with
  | LBool => Bool | LInt => Int | LInt8 => Int8 | LInt16 => Int16
  | LInt32 => Int32 | LInt64 => Int64
  | LUint => Uint | LUint8 => Uint8 | LUint16 => Uint16
  | LUint32 => Uint32 | LUint64 => Uint64 | LUintptr => Uintptr
  | LFloat32 => Float32 | LFloat64 => Float64
  | LComplex64 => Complex64 | LComplex128 => Complex128
  | LChan => Chan | LFunc => Func | LUnsafePointer => UnsafePointer
  end.

(** Leaf kinds that [Value.IsNil] accepts. *)
Definition leafNilable (l : Leaf) : bool :=
  match l with
  | LChan | LFunc | LUnsafePointer => true
  | _ => false
  end.

End reflect.

(** ** Package strings *)

Module strings.

(** [strings.Contains(s, substr)]: [substr] occurs in [s] at some offset. *)
Fixpoint Contains (s substr : string) : bool :=
  if String.prefix substr s then true
  else match s with
       | EmptyString => false
       | String _ s' => Contains s' substr
       end.

End strings.

(** ** Data model *)

(** A struct tag, as [reflect.StructTag] reads it: the conventional
    [key:"value"] pairs in the order written.  A tag that is absent or not
    in the conventional format has no pair for the key. *)
Definition StructTag : Type := list (string * string).

(** [StructTag.Get(key)]: the value of the first pair with that key, or the
    empty string. *)
Fixpoint Get (tag : StructTag) (key : string) : string :=
  match tag with
  | [] => ""
  | (k, v) :: rest => if String.eqb k key then v else Get rest key
  end.

(** What the [Validate] method of a pointer's type does on this value:
    returns nil, returns an error with the given message, or panics. *)
Inductive verdict : Type :=
| Pass
| Fail (msg : string)
| Crash.

(** [reflect.StructField] together with the field's value.  [Exported] is
    [PkgPath == ""]; [IsInterface] says the declared type of the field is an
    interface type (then the field's kind is [reflect.Interface] whatever it
    holds). *)
Record StructField (V : Type) : Type := mkField {
  Name : string;
  Tag : StructTag;
  Exported : bool;
  IsInterface : bool;
  Value : V
}.
Arguments mkField {V}.
Arguments Name {V}.
Arguments Tag {V}.
Arguments Exported {V}.
Arguments IsInterface {V}.
Arguments Value {V}.

#[local] Set Warnings "-register-all".

(** A Go [interface{}] value: the nil interface or a concrete dynamic value.
    A child (pointer target, field, element, map value) is stored as what
    [Value.Interface()] returns for it, so a child of interface type holding
    nothing is [Nil].

    - [Pointer elem validater target]: [elem] is [Type().Elem().Name()];
      [validater] is [None] when the pointer type does not implement
      [Validater]; [target] is [None] for a nil pointer.
    - [Slice] and [Map] hold [None] when nil; map entries are listed in the
      order [MapKeys] returns the keys in this run.
    - [Str name s]: [name] is [Type().Name()], which is ["string"] for the
      built-in type and something else for a defined string type.
    - [Other k name bits]: a value of leaf kind; [bits] is its content
      (for a channel, function or unsafe pointer: its address, 0 when nil). *)
Inductive value : Type :=
| Nil
| Pointer (elem : string) (validater : option verdict) (target : option value)
| Struct (name : string) (fields : list (StructField value))
| Slice (name : string) (elems : option (list value))
| Array (name : string) (elems : list value)
| Map (name : string) (entries : option (list (value * value)))
| Str (name : string) (s : string)
| Other (k : reflect.Leaf) (name : string) (bits : Z).

Definition field : Type := StructField value.

(** [reflect.TypeOf(c).Kind()]; [None] when [TypeOf] returns nil. *)
Definition KindOf (c : value) : option reflect.Kind :=
  match c with
  | Nil => None
  | Pointer _ _ _ => Some reflect.Ptr
  | Struct _ _ => Some reflect.Struct
  | Slice _ _ => Some reflect.Slice
  | Array _ _ => Some reflect.Array
  | Map _ _ => Some reflect.Map
  | Str _ _ => Some reflect.String
  | Other k _ _ => Some (reflect.leafKind k)
  end.

Definition isNilInterface (c : value) : bool :=
  match c with
  | Nil => true
  | _ => false
  end.

(** [valueOf.Field(i).IsNil()]: [None] when [IsNil] panics, which it does
    for every kind other than chan, func, interface, map, pointer, slice
    and unsafe pointer. *)
Definition IsNil (f : field) : option bool :=
  if IsInterface f then Some (isNilInterface (Value f))
  else match Value f with
       | Nil => None
       | Pointer _ _ None => Some true
       | Pointer _ _ (Some _) => Some false
       | Slice _ None => Some true
       | Slice _ (Some _) => Some false
       | Map _ None => Some true
       | Map _ (Some _) => Some false
       | Other k _ bits =>
           if reflect.leafNilable k then Some (Z.eqb bits 0) else None
       | Struct _ _ | Array _ _ | Str _ _ => None
       end.

(** [valueOf.Len()] of a slice or map: a nil one has length 0. *)
Definition Len {A : Type} (l : option (list A)) : nat :=
  match l with
  | None => 0
  | Some xs => List.length xs
  end.

(** ** Results and the run log *)

(** Why a run panicked. *)
Inductive panic : Type :=
| NilTypeKind          (* typeOf.Kind() on the nil Type of a nil interface *)
| InterfaceOnZeroValue (* Interface() on the zero Value Elem() gives for a nil pointer *)
| IsNilOnNonNilable    (* IsNil() on a Value whose kind has no nil *)
| InterfaceOnUnexported (* Interface() on a Value read from an unexported field *)
| NotBuiltinString     (* .(string) on a value of a defined string type *)
| ValidatePanicked.    (* the user's Validate method panicked *)

(** A Go [error] result, or a panic. *)
Inductive outcome : Type :=
| Ok
| Err (msg : string)
| Panic (p : panic).

Inductive event : Type :=
| Call (c : value)        (* validateConfigWithReflection(c) entered *)
| CallValidate (c : value) (* c.(Validater).Validate() invoked *)
| Printf (c : value).     (* the line handleArraySlice prints for c *)

Definition result : Type := list event * outcome.

Definition ret (o : outcome) : result := ([], o).

Definition log (e : event) (r : result) : result := (e :: fst r, snd r).

(** [if err := r; err != nil { return err }; k]: [k] runs only after a
    nil error, and a panic of [r] goes through. *)
Definition andThen (r k : result) : result :=
  match snd r with
  | Ok => (fst r ++ fst k, snd k)
  | _ => r
  end.

(** [if err := r; err != nil { return fmt.Errorf(..., err) }; return nil],
    with [w] the text put around the message of [err]; a panic of [r]
    goes through. *)
Definition wrapErr (w : string -> string) (r : result) : result :=
  match snd r with
  | Err e => (fst r, Err (w e))
  | _ => r
  end.

(** ** The engine *)

Record TagOptions : Type := { Optional : bool }.

Definition readTags (typeField : field) : TagOptions :=
  let tags := Get (Tag typeField) "remoteconfig" in
  {| Optional := strings.Contains tags "optional" |}.

Definition validaterMsg (elem err : string) : string :=
  "Validater Field: " ++ elem ++ ", failed to validate with error, " ++ err.

Definition subFieldMsg (elem err : string) : string :=
  "Sub Field of " ++ elem ++ ", failed to validate with error, " ++ err.

Definition notSetMsg (name : string) : string :=
  "Field: " ++ name ++ ", not set".

Definition sliceEmptyMsg (name : string) : string :=
  "Slice/Array Field: " ++ name ++ ", is empty".

Definition mapEmptyMsg (name : string) : string :=
  "Map Field: " ++ name ++ ", is empty".

Definition stringEmptyMsg (name : string) : string :=
  "String Field: " ++ name ++ ", contains an empty string".

Section Handlers.

(** The dispatcher, to which every handler calls back. *)
Variable validate : value -> result.

(** [c] is the pointer itself, [elem] is [typeOf.Elem().Name()].  With a
    [Validate] method that call is all that happens; without one the
    target goes back to the dispatcher, and [Elem().Interface()] panics when
    there is no target. *)
Definition handlePtr (c : value) (elem : string)
    (validater : option verdict) (target : option value) : result :=
  match validater with
  | Some v =>
      log (CallValidate c)
        (match v with
         | Pass => ret Ok
         | Fail err => ret (Err (validaterMsg elem err))
         | Crash => ret (Panic ValidatePanicked)
         end)
  | None =>
      match target with
      | None => ret (Panic InterfaceOnZeroValue)
      | Some t => wrapErr (subFieldMsg elem) (validate t)
      end
  end.

(** The loop over [valueOf.Field(i)], [i] from 0.  [IsNil()] panics on a
    field whose kind has no nil; [Interface()] panics on a field that is
    not exported. *)
Fixpoint handleStruct (fields : list field) : result :=
  match fields with
  | [] => ret Ok
  | f :: rest =>
      let tags := readTags f in
      match IsNil f with
      | None => ret (Panic IsNilOnNonNilable)
      | Some isNil =>
          if isNil && negb (Optional tags)
          then ret (Err (notSetMsg (Name f)))
          else if isNil && Optional tags
          then handleStruct rest
          else if Exported f then
            if negb (isNilInterface (Value f)) && negb isNil
            then andThen (validate (Value f)) (handleStruct rest)
            else handleStruct rest
          else ret (Panic InterfaceOnUnexported)
      end
  end.

Fixpoint elemsLoop (elems : list value) : result :=
  match elems with
  | [] => ret Ok
  | x :: rest => andThen (validate x) (elemsLoop rest)
  end.

(** [name] is [valueOf.Type().Name()]; [elems] is [None] for a nil slice,
    whose [Len()] is 0.  The first statement prints. *)
Definition handleArraySlice (c : value) (name : string)
    (elems : option (list value)) : result :=
  log (Printf c)
    (if Nat.leb (Len elems) 0 then ret (Err (sliceEmptyMsg name))
     else match elems with
          | None => ret Ok
          | Some xs => elemsLoop xs
          end).

Fixpoint entriesLoop (entries : list (value * value)) : result :=
  match entries with
  | [] => ret Ok
  | (_, v) :: rest => andThen (validate v) (entriesLoop rest)
  end.

Definition handleMap (name : string)
    (entries : option (list (value * value))) : result :=
  if Nat.leb (Len entries) 0 then ret (Err (mapEmptyMsg name))
  else match entries with
       | None => ret Ok
       | Some es => entriesLoop es
       end.

End Handlers.

(** [valueOf.Interface().(string)] asserts the built-in type [string], so
    it panics on a value of a defined string type, whose kind is
    [reflect.String] all the same. *)
Definition handleString (name s : string) : result :=
  if String.eqb name "string" then
    if String.eqb s "" then ret (Err (stringEmptyMsg name)) else ret Ok
  else ret (Panic NotBuiltinString).

(** The switch on [typeOf.Kind()]; [typeOf] is nil for the nil interface
    and the call of [Kind] panics. *)
Fixpoint validateConfigWithReflection (c : value) : result :=
  log (Call c)
    (match c with
     | Nil => ret (Panic NilTypeKind)
     | Pointer elem validater target =>
         handlePtr validateConfigWithReflection c elem validater target
     | Struct _ fields => handleStruct validateConfigWithReflection fields
     | Slice name elems =>
         handleArraySlice validateConfigWithReflection c name elems
     | Array name elems =>
         handleArraySlice validateConfigWithReflection c name (Some elems)
     | Map name entries => handleMap validateConfigWithReflection name entries
     | Str name s => handleString name s
     | Other _ _ _ => ret Ok
     end).

(** ** Download, decode, validate *)

Module http.

Definition StatusOK : Z := 200.

(** The part of [http.Response] the code reads. *)
Record Response : Type := { StatusCode : Z; Body : string }.

End http.

(** The collaborators of [DownloadJSONValidate]: what [http.Get] answers for
    a URL (a response, or the message of the transport error) and what
    [json.Decoder.Decode] makes of a body for a target: the target as the
    decoder left it, and the message of the decoding error if there is one.
    On an error the target may be partly filled. *)
Record World : Type := {
  http_Get : string -> sum http.Response string;
  json_Decode : string -> value -> value * option string
}.

(** [%d] of an [int]. *)
Definition itoa (n : Z) : string := NilZero.string_of_int (Z.to_int n).

Definition downloadFailedMsg (signedURL : string) (code : Z) : string :=
  "Download of JSON failed, URL = " ++ signedURL ++ ", Response Code = "
    ++ itoa code.

Definition decodeFailedMsg (err : string) : string :=
  "Failed to decode JSON, with error, " ++ err.

Definition DownloadJSONValidate (w : World) (signedURL : string)
    (configStruct : value) : result :=
  match http_Get w signedURL with
  | inr err => ret (Err err)
  | inl resp =>
      if negb (Z.eqb (http.StatusCode resp) http.StatusOK)
      then ret (Err (downloadFailedMsg signedURL (http.StatusCode resp)))
      else
        match json_Decode w (http.Body resp) configStruct with
        | (_, Some err) => ret (Err (decodeFailedMsg err))
        | (decoded, None) =>
            andThen (validateConfigWithReflection decoded) (ret Ok)
        end
  end.

(** ** Vocabulary of the statements *)

(** The kind of [valueOf.Field(i)]. *)
Definition fieldKind (f : field) : option reflect.Kind :=
  if IsInterface f then Some reflect.Interface else KindOf (Value f).

(** The kinds on which [Value.IsNil] does not panic. *)
Definition nilableKind (k : reflect.Kind) : bool :=
  match k with
  | reflect.Chan | reflect.Func | reflect.Interface | reflect.Map
  | reflect.Ptr | reflect.Slice | reflect.UnsafePointer => true
  | _ => false
  end.

(** The kinds the dispatcher has a case for. *)
Definition dispatchedKinds : list reflect.Kind :=
  [reflect.Ptr; reflect.Struct; reflect.Slice; reflect.Array; reflect.Map;
   reflect.String].

Section Passing.

Variable validate : value -> result.

(** A field the record handler gets past: nil and optional, or non-nil,
    exported and valid. *)
Definition fieldPasses (f : field) : Prop :=
  (IsNil f = Some true /\ Optional (readTags f) = true) \/
  (IsNil f = Some false /\ Exported f = true /\
   snd (validate (Value f)) = Ok).

(** What validating a field adds to the log: nothing for a nil field. *)
Definition fieldLog (f : field) : list event :=
  match IsNil f with
  | Some false => fst (validate (Value f))
  | _ => []
  end.

Definition valuePasses (v : value) : Prop := snd (validate v) = Ok.

Definition valueLog (v : value) : list event := fst (validate v).

End Passing.

(** One level of a descent: the node the dispatcher is at and the child it
    goes into.  [ThroughPtr] is a pointer whose type has no [Validate]. *)
Inductive frame : Type :=
| ThroughPtr (elem : string)
| ThroughField (name : string) (pre : list field)
    (fname : string) (tag : StructTag) (iface : bool) (post : list field)
| ThroughSlice (name : string) (pre post : list value)
| ThroughArray (name : string) (pre post : list value)
| ThroughMap (name : string) (pre : list (value * value)) (key : value)
    (post : list (value * value)).

Definition fill (fr : frame) (v : value) : value :=
  match fr with
  | ThroughPtr elem => Pointer elem None (Some v)
  | ThroughField name pre fname tag iface post =>
      Struct name (pre ++ mkField fname tag true iface v :: post)
  | ThroughSlice name pre post => Slice name (Some (pre ++ v :: post))
  | ThroughArray name pre post => Array name (pre ++ v :: post)
  | ThroughMap name pre key post => Map name (Some (pre ++ (key, v) :: post))
  end.

(** The value with [v] at the end of the path [ctx], outermost level first. *)
Fixpoint plug (ctx : list frame) (v : value) : value :=
  match ctx with
  | [] => v
  | fr :: inner => fill fr (plug inner v)
  end.

(** The context a level adds to an error that passes through it. *)
Definition frameWrap (fr : frame) (e : string) : string :=
  match fr with
  | ThroughPtr elem => subFieldMsg elem e
  | _ => e
  end.

Fixpoint wrap (ctx : list frame) (e : string) : string :=
  match ctx with
  | [] => e
  | fr :: inner => frameWrap fr (wrap inner e)
  end.

(** The pointer levels of a path, outermost first: the [elem] names. *)
Definition pointerLevels (ctx : list frame) : list string :=
  flat_map (fun fr => match fr with
                      | ThroughPtr elem => [elem]
                      | _ => []
                      end) ctx.

(** The traversal gets to the child [v] of the level: everything before it
    passes, and as a field it is not nil. *)
Definition reaches (fr : frame) (v : value) : Prop :=
  match fr with
  | ThroughPtr _ => True
  | ThroughField _ pre fname tag iface _ =>
      Forall (fieldPasses validateConfigWithReflection) pre /\
      IsNil (mkField fname tag true iface v) = Some false
  | ThroughSlice _ pre _ | ThroughArray _ pre _ =>
      Forall (valuePasses validateConfigWithReflection) pre
  | ThroughMap _ pre _ _ =>
      Forall (fun kv => valuePasses validateConfigWithReflection (snd kv)) pre
  end.

Fixpoint descends (ctx : list frame) (v : value) : Prop :=
  match ctx with
  | [] => True
  | fr :: inner => reaches fr (plug inner v) /\ descends inner v
  end.

(** ** Sample configurations *)

Module Sample.

Definition optionalTag : StructTag := [("remoteconfig", "optional")].

(** A value of the built-in type [string]. *)
Definition str (s : string) : value := Str "string" s.

(** A non-nil [*string]. *)
Definition strPtr (s : string) : value :=
  Pointer "string" None (Some (str s)).

Definition nilStrPtr : value := Pointer "string" None None.

(** An exported field with no tag. *)
Definition required (name : string) (v : value) : field :=
  mkField name [] true false v.

Definition optional (name : string) (v : value) : field :=
  mkField name optionalTag true false v.

(** [type Server struct { Host *string }] *)
Definition server (host : string) : value :=
  Struct "Server" [required "Host" (strPtr host)].

(** [type Hostname string] *)
Definition hostname (s : string) : value := Str "Hostname" s.

(** A struct with a field [secret *string], unexported and set. *)
Definition withSecret : value :=
  Struct "Config" [mkField "secret" [] false false (strPtr "x")].

(** [struct { A *string; B string }] with [A] nil. *)
Definition nilThenBare : list field :=
  [required "A" nilStrPtr; required "B" (str "b")].

(** [struct { B string }] *)
Definition bare : list field := [required "B" (str "b")].

Definition world (get : sum http.Response string)
    (dec : value * option string) : World :=
  {| http_Get := fun _ => get; json_Decode := fun _ _ => dec |}.

End Sample.

(** ** Loading from S3 *)

Definition DEFAULT_S3_EXPIRY : Z := 60.

Definition DEFAULT_S3_ENDPOINT : string := "".

Section S3.

(** [AWSRegion] and [BuildSignedS3URL] are declared in another file of the
    package: the type is left open and the function is taken as what it
    answers, a signed URL or the message of its error. *)
Variable AWSRegion : Type.
Variable BuildSignedS3URL :
  string -> AWSRegion -> Z -> string -> sum string string.

Definition LoadConfigFromS3 (w : World) (configURL : string)
    (configRegion : AWSRegion) (configEndpoint : string)
    (configStruct : value) : result :=
  match BuildSignedS3URL configURL configRegion DEFAULT_S3_EXPIRY
          configEndpoint with
  | inr err => ret (Err err)
  | inl signedURL => DownloadJSONValidate w signedURL configStruct
  end.

End S3.

(** ** More vocabulary *)

(** The child [v] of a level is gone into when the level is validated: as
    a field it is not nil (a nil field is skipped or reported, never
    validated); a pointer target, an element and a map value always are. *)
Definition entered (fr : frame) (v : value) : Prop :=
  match fr with
  | ThroughField _ _ fname tag iface _ =>
      IsNil (mkField fname tag true iface v) <> Some true
  | _ => True
  end.

Fixpoint enteredAll (ctx : list frame) (v : value) : Prop :=
  match ctx with
  | [] => True
  | fr :: inner => entered fr (plug inner v) /\ enteredAll inner v
  end.

(** Two values that no nil check tells apart, as a field of either sort. *)
Definition sameNilness (u u' : value) : Prop :=
  forall name tag exported iface,
    IsNil (mkField name tag exported iface u) =
    IsNil (mkField name tag exported iface u').

(** The messages the handlers make themselves, as opposed to the ones they
    pass on. *)
Inductive leafMsg : string -> Prop :=
| leaf_not_set (name : string) : leafMsg (notSetMsg name)
| leaf_slice_empty (name : string) : leafMsg (sliceEmptyMsg name)
| leaf_map_empty (name : string) : leafMsg (mapEmptyMsg name)
| leaf_string_empty : leafMsg (stringEmptyMsg "string")
| leaf_validater (elem err : string) : leafMsg (validaterMsg elem err).

(** The field [f] with another tag. *)
Definition withTag (tag : StructTag) (f : field) : field :=
  mkField (Name f) tag (Exported f) (IsInterface f) (Value f).

(** The graphs validation accepts, said without the traversal: a pointer
    whose [Validate] answers nil; a pointer without [Validate] to an
    accepted value; a record whose nil fields are optional and whose other
    fields are exported and accepted; a slice, array or map with at least
    one element, all accepted; a non-empty built-in string; any scalar. *)
Inductive Valid : value -> Prop :=
| Valid_validater (elem : string) (target : option value) :
    Valid (Pointer elem (Some Pass) target)
| Valid_pointer (elem : string) (t : value) :
    Valid t -> Valid (Pointer elem None (Some t))
| Valid_struct (name : string) (fields : list field) :
    Forall (fun f =>
              (IsNil f = Some true /\ Optional (readTags f) = true) \/
              (IsNil f = Some false /\ Exported f = true /\
               Valid (Value f))) fields ->
    Valid (Struct name fields)
| Valid_slice (name : string) (x : value) (xs : list value) :
    Forall Valid (x :: xs) -> Valid (Slice name (Some (x :: xs)))
| Valid_array (name : string) (x : value) (xs : list value) :
    Forall Valid (x :: xs) -> Valid (Array name (x :: xs))
| Valid_map (name : string) (e : value * value)
    (es : list (value * value)) :
    Forall (fun kv => Valid (snd kv)) (e :: es) ->
    Valid (Map name (Some (e :: es)))
| Valid_string (s : string) : s <> ""%string -> Valid (Str "string" s)
| Valid_other (k : reflect.Leaf) (name : string) (bits : Z) :
    Valid (Other k name bits).

(** A result that is not a panic. *)
Definition returns (o : outcome) : Prop :=
  match o with
  | Panic _ => False
  | _ => True
  end.

(** Graphs of the shape the engine is made for: every field of every
    record is of a kind that has nil and, when set, exported; no pointer
    without [Validate] is nil where the traversal can get to it; no
    [Validate] panics; every string is of the built-in type; no interface
    holds nothing. *)
Inductive Shaped : value -> Prop :=
| Shaped_validater (elem : string) (v : verdict) (target : option value) :
    v <> Crash -> Shaped (Pointer elem (Some v) target)
| Shaped_pointer (elem : string) (t : value) :
    Shaped t -> Shaped (Pointer elem None (Some t))
| Shaped_struct (name : string) (fields : list field) :
    Forall (fun f =>
              IsNil f = Some true \/
              (IsNil f = Some false /\ Exported f = true /\
               Shaped (Value f))) fields ->
    Shaped (Struct name fields)
| Shaped_slice (name : string) (xs : list value) :
    Forall Shaped xs -> Shaped (Slice name (Some xs))
| Shaped_nil_slice (name : string) : Shaped (Slice name None)
| Shaped_array (name : string) (xs : list value) :
    Forall Shaped xs -> Shaped (Array name xs)
| Shaped_map (name : string) (es : list (value * value)) :
    Forall (fun kv => Shaped (snd kv)) es -> Shaped (Map name (Some es))
| Shaped_nil_map (name : string) : Shaped (Map name None)
| Shaped_string (s : string) : Shaped (Str "string" s)
| Shaped_other (k : reflect.Leaf) (name : string) (bits : Z) :
    Shaped (Other k name bits).

(** ** More sample configurations *)

Module Sample2.

(** [type Host struct{...}] with a [Validate] method on [*Host] that
    answers [v]; the struct has the one field [Addr *string]. *)
Definition host (v : verdict) (addr : string) : value :=
  Pointer "Host" (Some v)
    (Some (Struct "Host" [Sample.required "Addr" (Sample.strPtr addr)])).

(** The path to [Host] of the first server of [*Config]. *)
Definition toHost : list frame :=
  [ThroughPtr "Config";
   ThroughField "Config" [] "Servers" [] false [];
   ThroughPtr "";
   ThroughSlice "" [] [];
   ThroughField "Server" [] "Host" [] false [];
   ThroughPtr "string"].

(** The path to the value of key ["db"] of a [map[string]*Host] field. *)
Definition toDb : list frame :=
  [ThroughPtr "Config";
   ThroughField "Config" [Sample.optional "Tags" Sample.nilStrPtr]
     "Hosts" [] false [Sample.required "Name" (Sample.strPtr "")];
   ThroughMap "" [] (Sample.str "db") []].

Definition signer (answer : sum string string) :
    string -> unit -> Z -> string -> sum string string :=
  fun _ _ expiry _ =>
    if Z.eqb expiry DEFAULT_S3_EXPIRY then answer else inr "expired".

End Sample2.

(** ** Substring search *)

Lemma prefix_append (a s : string) :
  String.prefix a s = true <-> exists b, s = (a ++ b)%string.
Proof.
  revert s; induction a as [|c a IH]; intros s.
  - destruct s; simpl; split; eauto.
  - destruct s as [|d s]; simpl.
    + split; [discriminate | intros [b Hb]; discriminate].
    + destruct (ascii_dec c d) as [->|Hcd].
      * rewrite IH. split; intros [b Hb]; exists b; congruence.
      * split; [discriminate | intros [b Hb]; congruence].
Qed.

Lemma append_assoc (a b c : string) :
  ((a ++ b) ++ c = a ++ b ++ c)%string.
Proof. induction a; simpl; congruence. Qed.

Lemma Contains_unfold (s substr : string) :
  strings.Contains s substr =
  if String.prefix substr s then true
  else match s with
       | EmptyString => false
       | String _ s' => strings.Contains s' substr
       end.
Proof. destruct s; reflexivity. Qed.

Lemma Contains_occurs (s substr : string) :
  strings.Contains s substr = true <->
  exists a b, s = (a ++ substr ++ b)%string.
Proof.
  induction s as [|c s IH]; rewrite Contains_unfold;
    match goal with |- context [String.prefix ?x ?y] =>
      destruct (String.prefix x y) eqn:Hp end.
  - split; [intros _ | reflexivity]. apply prefix_append in Hp.
    destruct Hp as [b Hb]. exists ""%string, b. exact Hb.
  - split; [discriminate|]. intros [a [b Hab]].
    destruct a; [|discriminate]. simpl in Hab.
    assert (String.prefix substr "" = true) by (apply prefix_append; eauto).
    congruence.
  - split; [intros _ | reflexivity]. apply prefix_append in Hp.
    destruct Hp as [b Hb]. exists ""%string, b. exact Hb.
  - rewrite IH. split.
    + intros [a [b Hab]]. exists (String c a), b. simpl. congruence.
    + intros [a [b Hab]]. destruct a as [|d a].
      * simpl in Hab.
        assert (String.prefix substr (String c s) = true)
          by (apply prefix_append; eauto).
        congruence.
      * simpl in Hab. injection Hab as _ Hs. eauto.
Qed.

Lemma Get_absent (tag : StructTag) (key : string) :
  ~ In key (map fst tag) -> Get tag key = "".
Proof.
  induction tag as [|[k v] tag IH]; simpl; intros Hin; auto.
  destruct (String.eqb_spec k key) as [->|Hne].
  - exfalso; auto.
  - apply IH. intros H. apply Hin. now right.
Qed.

(** ** The annotation reader *)

(** C8, amended: the annotation reader answers [Optional = true] exactly
    when the text under the [remoteconfig] key of the field's tag has the
    substring ["optional"] somewhere in it, as a word of its own or inside
    a longer one; it is a total function of the field's tag, and a tag
    without that key gives the default [Optional = false]. *)
Theorem readTags_optional_iff_substring (f : field) :
  (Optional (readTags f) = true <->
   exists a b, Get (Tag f) "remoteconfig" = (a ++ "optional" ++ b)%string) /\
  (forall g : field, Tag g = Tag f -> readTags g = readTags f) /\
  (~ In "remoteconfig" (map fst (Tag f)) -> Optional (readTags f) = false).
Proof.
  split; [|split].
  - unfold readTags; simpl. apply Contains_occurs.
  - intros g Hg. unfold readTags. now rewrite Hg.
  - intros Habs. unfold readTags; simpl.
    rewrite (Get_absent _ _ Habs). reflexivity.
Qed.

Lemma readTags_optional_iff_substring_witness :
  Optional (readTags (Sample.required "Name" Sample.nilStrPtr)) = false /\
  Optional (readTags (Sample.optional "Tags" Sample.nilStrPtr)) = true.
Proof.
  split.
  - apply (proj2 (proj2 (readTags_optional_iff_substring
                           (Sample.required "Name" Sample.nilStrPtr)))).
    simpl. intros H; exact H.
  - apply (proj1 (readTags_optional_iff_substring
                    (Sample.optional "Tags" Sample.nilStrPtr))).
    exists "", "". reflexivity.
Defined.

(** C8 as stated fails on metadata that is not the token [optional] but
    has it inside a longer word: [remoteconfig:"notoptional"] is read as
    optional, where the claim has unrecognized metadata give the default. *)
Lemma unrecognized_word_containing_optional_is_optional :
  let f := mkField "Name" [("remoteconfig", "notoptional")] true false
             Sample.nilStrPtr in
  Get (Tag f) "remoteconfig" = "notoptional"%string /\
  "notoptional"%string <> "optional"%string /\
  Optional (readTags f) = true.
Proof.
  intros f. split; [reflexivity|]. split; [discriminate | reflexivity].
Qed.

(** ** The loops of the handlers *)

Section Loops.

Variable V : value -> result.

Lemma andThen_ok (r k : result) :
  snd r = Ok -> andThen r k = (fst r ++ fst k, snd k).
Proof. unfold andThen. now intros ->. Qed.

Lemma andThen_stop (r k : result) : snd r <> Ok -> andThen r k = r.
Proof. unfold andThen. destruct (snd r); congruence. Qed.

(** Past a run of passing fields the record handler is where it would be
    without them, with their logs in front. *)
Lemma handleStruct_past (pre rest : list field) :
  Forall (fieldPasses V) pre ->
  handleStruct V (pre ++ rest) =
  (flat_map (fieldLog V) pre ++ fst (handleStruct V rest),
   snd (handleStruct V rest)).
Proof.
  induction 1 as [|f pre Hf _ IH]; cbn [app flat_map handleStruct].
  - now destruct (handleStruct V rest).
  - cbv zeta. unfold fieldLog at 1.
    destruct Hf as [[Hnil Hopt] | [Hnil [Hexp Hok]]]; rewrite Hnil.
    + rewrite Hopt; simpl. exact IH.
    + rewrite Hexp.
      assert (Hi : isNilInterface (Value f) = false).
      { unfold IsNil in Hnil. destruct (IsInterface f).
        - congruence.
        - destruct (Value f); try discriminate; reflexivity. }
      rewrite Hi; simpl. rewrite (andThen_ok _ _ Hok), IH; simpl.
      now rewrite app_assoc.
Qed.

Lemma elemsLoop_past (pre rest : list value) :
  Forall (valuePasses V) pre ->
  elemsLoop V (pre ++ rest) =
  (flat_map (valueLog V) pre ++ fst (elemsLoop V rest),
   snd (elemsLoop V rest)).
Proof.
  induction 1 as [|x pre Hx _ IH]; simpl.
  - now destruct (elemsLoop V rest).
  - rewrite (andThen_ok _ _ Hx), IH; simpl.
    unfold valueLog at 1. now rewrite app_assoc.
Qed.

Lemma entriesLoop_past (pre rest : list (value * value)) :
  Forall (fun kv => valuePasses V (snd kv)) pre ->
  entriesLoop V (pre ++ rest) =
  (flat_map (fun kv => valueLog V (snd kv)) pre ++ fst (entriesLoop V rest),
   snd (entriesLoop V rest)).
Proof.
  induction 1 as [|[k x] pre Hx _ IH]; simpl.
  - now destruct (entriesLoop V rest).
  - simpl in Hx. rewrite (andThen_ok _ _ Hx), IH; simpl.
    unfold valueLog at 1. now rewrite app_assoc.
Qed.

(** The map loop looks at the values only. *)
Lemma entriesLoop_values (es : list (value * value)) :
  entriesLoop V es = elemsLoop V (map snd es).
Proof.
  induction es as [|[k x] es IH]; simpl; [reflexivity | now rewrite IH].
Qed.

Lemma length_app_cons_pos {A : Type} (pre post : list A) (x : A) :
  Nat.leb (List.length (pre ++ x :: post)) 0 = false.
Proof. rewrite length_app; simpl. apply Nat.leb_gt. lia. Qed.

End Loops.

(** ** The record handler *)

Lemma IsNil_non_nilable (f : field) (k : reflect.Kind) :
  fieldKind f = Some k -> nilableKind k = false -> IsNil f = None.
Proof.
  unfold fieldKind, IsNil. destruct (IsInterface f).
  - intros [= <-]; discriminate.
  - destruct (Value f) as [|? ? ?| | | | | |l ? ?]; simpl;
      intros [= <-]; try discriminate; try reflexivity.
    destruct l; simpl; (discriminate || reflexivity).
Qed.

Lemma IsNil_false_not_nil_interface (f : field) :
  IsNil f = Some false -> isNilInterface (Value f) = false.
Proof.
  unfold IsNil. destruct (IsInterface f); [congruence|].
  destruct (Value f); (discriminate || reflexivity).
Qed.

(** C1, amended: the record handler takes the fields in declaration order,
    each once.  Having got past the fields before it, at a field [f]:
    if [f] is nil and optional it goes on to the next field (the result is
    that of the remaining fields); if [f] is nil and not optional it returns
    ["Field: <name>, not set"] without a look at the later fields; if [f] is
    not nil and exported it calls the dispatcher on the field's value, and a
    result of that call other than success is the handler's result, again
    without a look at the later fields.  When every field passes, the log
    is the fields' logs in order and the result is success. *)
Theorem handleStruct_classifies_each_field
    (pre post : list field) (f : field) :
  Forall (fieldPasses validateConfigWithReflection) pre ->
  let V := validateConfigWithReflection in
  let before := flat_map (fieldLog V) pre in
  (IsNil f = Some true -> Optional (readTags f) = true ->
   handleStruct V (pre ++ f :: post) =
   (before ++ fst (handleStruct V post), snd (handleStruct V post))) /\
  (IsNil f = Some true -> Optional (readTags f) = false ->
   handleStruct V (pre ++ f :: post) = (before, Err (notSetMsg (Name f)))) /\
  (IsNil f = Some false -> Exported f = true ->
   (snd (V (Value f)) <> Ok ->
    handleStruct V (pre ++ f :: post) =
    (before ++ fst (V (Value f)), snd (V (Value f)))) /\
   (snd (V (Value f)) = Ok ->
    handleStruct V (pre ++ f :: post) =
    (before ++ fst (V (Value f)) ++ fst (handleStruct V post),
     snd (handleStruct V post)))) /\
  handleStruct V pre = (before, Ok).
Proof.
  intros Hpre V before. unfold before.
  assert (Hat : forall rest, handleStruct V (pre ++ rest) =
            (flat_map (fieldLog V) pre ++ fst (handleStruct V rest),
             snd (handleStruct V rest)))
    by (intros rest; apply handleStruct_past, Hpre).
  split; [|split; [|split]].
  - intros Hnil Hopt. rewrite Hat. cbn [handleStruct]; cbv zeta.
    now rewrite Hnil, Hopt.
  - intros Hnil Hopt. rewrite Hat. cbn [handleStruct]; cbv zeta.
    rewrite Hnil, Hopt; simpl. now rewrite app_nil_r.
  - intros Hnil Hexp. split.
    + intros Hstop. rewrite Hat. cbn [handleStruct]; cbv zeta.
      rewrite Hnil, Hexp, (IsNil_false_not_nil_interface _ Hnil); simpl.
      now rewrite (andThen_stop _ _ Hstop).
    + intros Hok. rewrite Hat. cbn [handleStruct]; cbv zeta.
      rewrite Hnil, Hexp, (IsNil_false_not_nil_interface _ Hnil); simpl.
      now rewrite (andThen_ok _ _ Hok).
  - rewrite <- (app_nil_r pre) at 1. rewrite Hat; simpl.
    now rewrite app_nil_r.
Qed.

Lemma handleStruct_classifies_each_field_witness :
  let V := validateConfigWithReflection in
  let tags := Sample.optional "Tags" Sample.nilStrPtr in
  let name := Sample.required "Name" Sample.nilStrPtr in
  let host := Sample.required "Host" (Sample.strPtr "") in
  let port := Sample.required "Port" (Sample.strPtr "8080") in
  handleStruct V ([tags] ++ name :: [host]) =
    ([], Err "Field: Name, not set") /\
  handleStruct V ([port] ++ tags :: [host]) =
    (fst (V (Value port)) ++ fst (handleStruct V [host]),
     snd (handleStruct V [host])) /\
  handleStruct V ([tags] ++ host :: [name]) =
    (fst (V (Value host)),
     Err "Sub Field of string, failed to validate with error, String Field: string, contains an empty string") /\
  handleStruct V ([tags] ++ port :: [name]) =
    (fst (V (Value port)), Err "Field: Name, not set") /\
  handleStruct V [tags; port] = (fst (V (Value port)), Ok).
Proof.
  intros V tags name host port.
  assert (Htags : Forall (fieldPasses V) [tags])
    by (constructor; [left; split; reflexivity | constructor]).
  assert (Hport : Forall (fieldPasses V) [port])
    by (constructor; [right; repeat split; reflexivity | constructor]).
  assert (Hboth : Forall (fieldPasses V) [tags; port])
    by (constructor; [left; split; reflexivity | exact Hport]).
  split; [|split; [|split; [|split]]].
  - refine (proj1 (proj2 (handleStruct_classifies_each_field
      [tags] [host] name Htags)) _ _); reflexivity.
  - refine (proj1 (handleStruct_classifies_each_field
      [port] [host] tags Hport) _ _); reflexivity.
  - refine (proj1 (proj1 (proj2 (proj2 (handleStruct_classifies_each_field
      [tags] [name] host Htags))) _ _) _); [reflexivity.. | discriminate].
  - refine (proj2 (proj1 (proj2 (proj2 (handleStruct_classifies_each_field
      [tags] [name] port Htags))) _ _) _); reflexivity.
  - exact (proj2 (proj2 (proj2 (handleStruct_classifies_each_field
      [tags; port] [] name Hboth)))).
Defined.

(** C1 as stated fails on a field that is set but unexported: it is not
    nil, yet the dispatcher is never called on it; [Interface()] panics. *)
Lemma unexported_set_field_not_validated :
  let V := validateConfigWithReflection in
  let f := mkField "secret" [] false false (Sample.strPtr "x") in
  IsNil f = Some false /\
  handleStruct V [f] <> andThen (V (Value f)) (handleStruct V []) /\
  V Sample.withSecret =
  ([Call Sample.withSecret], Panic InterfaceOnUnexported).
Proof.
  intros V f. split; [reflexivity|]. split; [|reflexivity].
  vm_compute. discriminate.
Qed.

(** C10, amended: when the record handler gets to a field whose kind has
    no nil (every field before it was skipped or validated with success),
    it panics on the nil check of that field, whatever the field's tag; the
    field's value is never passed to the dispatcher and the later fields
    are not looked at. *)
Theorem handleStruct_faults_on_reached_non_nilable_field
    (pre post : list field) (f : field) (k : reflect.Kind) :
  Forall (fieldPasses validateConfigWithReflection) pre ->
  fieldKind f = Some k ->
  nilableKind k = false ->
  handleStruct validateConfigWithReflection (pre ++ f :: post) =
  (flat_map (fieldLog validateConfigWithReflection) pre,
   Panic IsNilOnNonNilable).
Proof.
  intros Hpre Hk Hnon. rewrite (handleStruct_past _ _ _ Hpre).
  cbn [handleStruct]; cbv zeta.
  rewrite (IsNil_non_nilable _ _ Hk Hnon); simpl. now rewrite app_nil_r.
Qed.

Lemma handleStruct_faults_on_reached_non_nilable_field_witness :
  handleStruct validateConfigWithReflection
    ([Sample.optional "Tags" Sample.nilStrPtr] ++
     Sample.required "B" (Sample.str "b") :: []) =
  ([], Panic IsNilOnNonNilable).
Proof.
  apply (handleStruct_faults_on_reached_non_nilable_field
           [Sample.optional "Tags" Sample.nilStrPtr] []
           (Sample.required "B" (Sample.str "b")) reflect.String).
  - constructor; [left; split; reflexivity | constructor].
  - reflexivity.
  - reflexivity.
Defined.

(** C10 as stated fails on a record whose bare field comes after a required
    field that is nil: the handler returns an error and does not panic. *)
Lemma bare_field_after_unset_field_no_fault :
  fieldKind (Sample.required "B" (Sample.str "b")) = Some reflect.String /\
  nilableKind reflect.String = false /\
  In (Sample.required "B" (Sample.str "b")) Sample.nilThenBare /\
  handleStruct validateConfigWithReflection Sample.nilThenBare =
  ([], Err "Field: A, not set").
Proof. repeat split; try reflexivity. right; left; reflexivity. Qed.

(** ** The sequence and mapping handlers *)

Lemma handleArraySlice_empty (c : value) (name : string)
    (elems : option (list value)) :
  Len elems = 0 ->
  handleArraySlice validateConfigWithReflection c name elems =
  ([Printf c], Err (sliceEmptyMsg name)).
Proof. unfold handleArraySlice. now intros ->. Qed.

Lemma handleArraySlice_stops (c : value) (name : string)
    (pre post : list value) (x : value) :
  let V := validateConfigWithReflection in
  Forall (valuePasses V) pre ->
  snd (V x) <> Ok ->
  handleArraySlice V c name (Some (pre ++ x :: post)) =
  (Printf c :: flat_map (valueLog V) pre ++ fst (V x), snd (V x)).
Proof.
  intros V Hpre Hx. unfold handleArraySlice, Len.
  rewrite length_app_cons_pos, (elemsLoop_past V _ _ Hpre).
  cbn [elemsLoop]. now rewrite (andThen_stop _ _ Hx).
Qed.

Lemma handleArraySlice_all_pass (c : value) (name : string)
    (xs : list value) :
  let V := validateConfigWithReflection in
  xs <> [] ->
  Forall (valuePasses V) xs ->
  handleArraySlice V c name (Some xs) =
  (Printf c :: flat_map (valueLog V) xs, Ok).
Proof.
  intros V Hne Hxs. unfold handleArraySlice, Len.
  destruct xs as [|x xs]; [congruence|]. cbn [List.length Nat.leb].
  rewrite <- (app_nil_r (x :: xs)) at 1.
  rewrite (elemsLoop_past V _ _ Hxs); simpl. now rewrite app_nil_r.
Qed.

Lemma handleMap_stops (name : string) (pre post : list (value * value))
    (k x : value) :
  let V := validateConfigWithReflection in
  Forall (fun kv => valuePasses V (snd kv)) pre ->
  snd (V x) <> Ok ->
  handleMap V name (Some (pre ++ (k, x) :: post)) =
  (flat_map (fun kv => valueLog V (snd kv)) pre ++ fst (V x), snd (V x)).
Proof.
  intros V Hpre Hx. unfold handleMap, Len.
  rewrite length_app_cons_pos, (entriesLoop_past V _ _ Hpre).
  cbn [entriesLoop]. now rewrite (andThen_stop _ _ Hx).
Qed.

Lemma handleMap_all_pass (name : string) (es : list (value * value)) :
  let V := validateConfigWithReflection in
  es <> [] ->
  Forall (fun kv => valuePasses V (snd kv)) es ->
  handleMap V name (Some es) =
  (flat_map (fun kv => valueLog V (snd kv)) es, Ok).
Proof.
  intros V Hne Hes. unfold handleMap, Len.
  destruct es as [|e es]; [congruence|]. cbn [List.length Nat.leb].
  rewrite <- (app_nil_r (e :: es)) at 1.
  rewrite (entriesLoop_past V _ _ Hes); simpl. now rewrite app_nil_r.
Qed.

(** C3: a slice or array of length zero (a nil slice too) fails with
    ["Slice/Array Field: <name>, is empty"]; otherwise the elements go to
    the dispatcher in index order, the result of the first element that
    does not succeed is the result, and no later element is looked at; when
    all succeed the result is success.  A map with no entry (a nil map too)
    fails with ["Map Field: <name>, is empty"]; otherwise the values, never
    the keys, go to the dispatcher in iteration order with the same
    first-failure rule. *)
Theorem sequences_and_mappings_stop_at_first_failure (name : string) :
  let V := validateConfigWithReflection in
  (forall c, (c = Slice name None \/ c = Slice name (Some []) \/
              c = Array name []) ->
     V c = ([Call c; Printf c], Err (sliceEmptyMsg name))) /\
  (forall c, (c = Map name None \/ c = Map name (Some [])) ->
     V c = ([Call c], Err (mapEmptyMsg name))) /\
  (forall c pre x post,
     (c = Slice name (Some (pre ++ x :: post)) \/
      c = Array name (pre ++ x :: post)) ->
     Forall (valuePasses V) pre ->
     (snd (V x) <> Ok ->
      V c = (Call c :: Printf c :: flat_map (valueLog V) pre ++ fst (V x),
             snd (V x))) /\
     (Forall (valuePasses V) (x :: post) ->
      V c = (Call c :: Printf c :: flat_map (valueLog V) (pre ++ x :: post),
             Ok))) /\
  (forall pre k x post,
     let c := Map name (Some (pre ++ (k, x) :: post)) in
     Forall (valuePasses V) (map snd pre) ->
     (snd (V x) <> Ok ->
      V c = (Call c :: flat_map (valueLog V) (map snd pre) ++ fst (V x),
             snd (V x))) /\
     (Forall (valuePasses V) (x :: map snd post) ->
      V c = (Call c :: flat_map (valueLog V) (map snd (pre ++ (k, x) :: post)),
             Ok))).
Proof.
  intros V. split; [|split; [|split]].
  - intros c [-> | [-> | ->]]; reflexivity.
  - intros c [-> | ->]; reflexivity.
  - intros c pre x post Hc Hpre. split.
    + intros Hx. destruct Hc as [-> | ->]; unfold V; cbn [validateConfigWithReflection];
        rewrite (handleArraySlice_stops _ _ _ _ _ Hpre Hx);
        reflexivity.
    + intros Hrest.
      assert (Hall : Forall (valuePasses V) (pre ++ x :: post))
        by (apply Forall_app; split; assumption).
      assert (Hne : pre ++ x :: post <> []) by (now destruct pre).
      destruct Hc as [-> | ->]; unfold V; cbn [validateConfigWithReflection];
        rewrite (handleArraySlice_all_pass _ _ _ Hne Hall);
        reflexivity.
  - intros pre k x post c Hpre.
    assert (Hpre' : Forall (fun kv => valuePasses V (snd kv)) pre)
      by (exact (proj1 (Forall_map snd (valuePasses V) pre) Hpre)).
    assert (Hlog : forall es : list (value * value),
              flat_map (valueLog V) (map snd es) =
              flat_map (fun kv => valueLog V (snd kv)) es)
      by (intros es; induction es; simpl; congruence).
    split.
    + intros Hx. unfold c, V. cbn [validateConfigWithReflection].
      rewrite (handleMap_stops _ _ _ _ _ Hpre' Hx), Hlog. reflexivity.
    + intros Hrest. unfold c, V. cbn [validateConfigWithReflection].
      assert (Hall : Forall (fun kv => valuePasses V (snd kv))
                       (pre ++ (k, x) :: post)).
      { apply Forall_app; split; [exact Hpre'|].
        exact (proj1 (Forall_map snd (valuePasses V) ((k, x) :: post))
                 Hrest). }
      assert (Hne : pre ++ (k, x) :: post <> []) by (now destruct pre).
      rewrite (handleMap_all_pass _ _ Hne Hall), Hlog. reflexivity.
Qed.

Lemma sequences_and_mappings_stop_at_first_failure_witness :
  let V := validateConfigWithReflection in
  let xs := [Sample.str "a"] ++ Sample.str "" :: [Sample.str ""] in
  let es := [(Sample.str "", Sample.str "a")] ++
            (Sample.str "k", Sample.str "") :: [(Sample.str "z", Nil)] in
  V (Slice "" (Some xs)) =
    ([Call (Slice "" (Some xs)); Printf (Slice "" (Some xs));
      Call (Sample.str "a"); Call (Sample.str "")],
     Err "String Field: string, contains an empty string") /\
  V (Array "" ([] ++ Sample.str "a" :: [Sample.str "b"])) =
    ([Call (Array "" [Sample.str "a"; Sample.str "b"]);
      Printf (Array "" [Sample.str "a"; Sample.str "b"]);
      Call (Sample.str "a"); Call (Sample.str "b")], Ok) /\
  V (Map "" (Some es)) =
    ([Call (Map "" (Some es)); Call (Sample.str "a"); Call (Sample.str "")],
     Err "String Field: string, contains an empty string") /\
  V (Slice "Hosts" None) =
    ([Call (Slice "Hosts" None); Printf (Slice "Hosts" None)],
     Err "Slice/Array Field: Hosts, is empty") /\
  V (Map "Ports" (Some [])) =
    ([Call (Map "Ports" (Some []))], Err "Map Field: Ports, is empty").
Proof.
  intros V xs es.
  assert (Ha : Forall (valuePasses V) [Sample.str "a"])
    by (constructor; [reflexivity | constructor]).
  split; [|split; [|split; [|split]]].
  - refine (proj1 (proj1 (proj2 (proj2
      (sequences_and_mappings_stop_at_first_failure "")))
      _ [Sample.str "a"] (Sample.str "") [Sample.str ""] _ Ha) _).
    + left; reflexivity.
    + discriminate.
  - refine (proj2 (proj1 (proj2 (proj2
      (sequences_and_mappings_stop_at_first_failure "")))
      _ [] (Sample.str "a") [Sample.str "b"] _ _) _).
    + right; reflexivity.
    + constructor.
    + constructor; [reflexivity | constructor; [reflexivity | constructor]].
  - refine (proj1 (proj2 (proj2 (proj2
      (sequences_and_mappings_stop_at_first_failure "")))
      [(Sample.str "", Sample.str "a")] (Sample.str "k") (Sample.str "")
      [(Sample.str "z", Nil)] Ha) _).
    discriminate.
  - refine (proj1 (sequences_and_mappings_stop_at_first_failure "Hosts")
      _ _). left; reflexivity.
  - refine (proj1 (proj2 (sequences_and_mappings_stop_at_first_failure
      "Ports")) _ _). right; reflexivity.
Defined.

(** ** The pointer handler *)

(** C2: on a pointer whose type has a [Validate] method the dispatcher
    calls [Validate], once, and nothing else: the log is the entry and that
    call, whatever the pointer points to.  A nil answer gives success, an
    error gives ["Validater Field: <elem>, failed to validate with error,
    <err>"], and the pointed-to value is not validated in either case. *)
Theorem validater_is_exclusive
    (elem : string) (v : verdict) (target : value) :
  let c := Pointer elem (Some v) (Some target) in
  fst (validateConfigWithReflection c) = [Call c; CallValidate c] /\
  List.length
    (filter (fun e => match e with CallValidate _ => true | _ => false end)
       (fst (validateConfigWithReflection c))) = 1 /\
  (v = Pass -> snd (validateConfigWithReflection c) = Ok) /\
  (forall err, v = Fail err ->
     snd (validateConfigWithReflection c) = Err (validaterMsg elem err)).
Proof.
  intros c. unfold c. destruct v; repeat split; try reflexivity;
    try discriminate.
  intros err [= ->]. reflexivity.
Qed.

Lemma validater_is_exclusive_witness :
  snd (validateConfigWithReflection (Sample.str "")) =
    Err "String Field: string, contains an empty string" /\
  snd (validateConfigWithReflection
         (Pointer "Host" (Some Pass) (Some (Sample.str "")))) = Ok /\
  snd (validateConfigWithReflection
         (Pointer "Host" (Some (Fail "bad host")) (Some (Sample.str "ok")))) =
    Err "Validater Field: Host, failed to validate with error, bad host".
Proof.
  split; [reflexivity | split].
  - apply (proj1 (proj2 (proj2 (validater_is_exclusive
             "Host" Pass (Sample.str ""))))). reflexivity.
  - apply (proj2 (proj2 (proj2 (validater_is_exclusive
             "Host" (Fail "bad host") (Sample.str "ok")))) "bad host").
    reflexivity.
Defined.

(** C7: a nil pointer whose type has no [Validate] method makes the
    dispatcher panic, as the root value or anywhere else: [Elem()] of the
    nil pointer is the zero [Value] and [Interface()] panics on it. *)
Theorem nil_pointer_without_validater_panics (elem : string) :
  validateConfigWithReflection (Pointer elem None None) =
  ([Call (Pointer elem None None)], Panic InterfaceOnZeroValue).
Proof. reflexivity. Qed.

(** ** Leaf kinds *)

(** C6: a value whose kind is none of pointer, struct, slice, array, map
    and string is accepted at once: the result is success whatever the
    value holds, and the log is the one entry of the dispatcher. *)
Theorem other_kinds_always_succeed (c : value) (k : reflect.Kind) :
  KindOf c = Some k ->
  ~ In k dispatchedKinds ->
  validateConfigWithReflection c = ([Call c], Ok).
Proof.
  intros Hk Hout. destruct c; simpl in Hk; try discriminate;
    injection Hk as <-; try reflexivity;
    exfalso; apply Hout; unfold dispatchedKinds; simpl; tauto.
Qed.

Lemma other_kinds_always_succeed_witness :
  validateConfigWithReflection (Other reflect.LInt "int" 0) =
  ([Call (Other reflect.LInt "int" 0)], Ok).
Proof.
  apply (other_kinds_always_succeed (Other reflect.LInt "int" 0) reflect.Int).
  - reflexivity.
  - unfold dispatchedKinds; simpl.
    intros [H | [H | [H | [H | [H | [H | H]]]]]];
      solve [discriminate H | exact H].
Defined.

(** Every leaf kind is outside the dispatcher's cases. *)
Lemma leafKind_not_dispatched (l : reflect.Leaf) :
  ~ In (reflect.leafKind l) dispatchedKinds.
Proof.
  unfold dispatchedKinds; simpl.
  intros [H | [H | [H | [H | [H | [H | H]]]]]];
    solve [destruct l; discriminate H | exact H].
Qed.

(** ** Errors on the way up *)

Lemma fill_propagates (fr : frame) (u : value) (e : string) :
  reaches fr u ->
  snd (validateConfigWithReflection u) = Err e ->
  snd (validateConfigWithReflection (fill fr u)) = Err (frameWrap fr e).
Proof.
  intros Hreach He.
  assert (Hstop : snd (validateConfigWithReflection u) <> Ok) by congruence.
  destruct fr as [elem | name pre fname tag iface post | name pre post
                 | name pre post | name pre key post];
    cbn [fill frameWrap validateConfigWithReflection]; simpl in Hreach.
  - unfold handlePtr, wrapErr, log. rewrite He. reflexivity.
  - destruct Hreach as [Hpre Hnil].
    rewrite (handleStruct_past _ _ _ Hpre). cbn [handleStruct]; cbv zeta.
    pose proof (IsNil_false_not_nil_interface _ Hnil) as Hi.
    rewrite Hnil. cbn [Exported Value] in *. rewrite Hi.
    cbn [negb andb]. rewrite (andThen_stop _ _ Hstop). exact He.
  - rewrite (handleArraySlice_stops _ _ _ _ _ Hreach Hstop). exact He.
  - rewrite (handleArraySlice_stops _ _ _ _ _ Hreach Hstop). exact He.
  - rewrite (handleMap_stops _ _ _ _ _ Hreach Hstop). exact He.
Qed.

Lemma plug_propagates (ctx : list frame) (v : value) (e : string) :
  descends ctx v ->
  snd (validateConfigWithReflection v) = Err e ->
  snd (validateConfigWithReflection (plug ctx v)) = Err (wrap ctx e).
Proof.
  intros Hd He. induction ctx as [|fr inner IH]; simpl.
  - exact He.
  - destruct Hd as [Hreach Hinner].
    apply fill_propagates; [exact Hreach | exact (IH Hinner)].
Qed.

Lemma wrap_pointerLevels (ctx : list frame) (e : string) :
  wrap ctx e = fold_right subFieldMsg e (pointerLevels ctx).
Proof.
  induction ctx as [|fr inner IH]; simpl; [reflexivity|].
  destruct fr; simpl; now rewrite IH.
Qed.

(** C5, amended: a failure found in the descent (everything before it on
    the way passes) is what the top-level call returns; nothing recovers
    from it.  On the way up each pointer level, and only a pointer level,
    puts ["Sub Field of <elem>, failed to validate with error, "] in front
    of the message, the outermost pointer first; record, sequence and
    mapping levels hand the error on unchanged. *)
Theorem failure_unwinds_through_pointer_levels
    (ctx : list frame) (v : value) (e : string) :
  descends ctx v ->
  snd (validateConfigWithReflection v) = Err e ->
  snd (validateConfigWithReflection (plug ctx v)) =
  Err (fold_right subFieldMsg e (pointerLevels ctx)).
Proof.
  intros Hd He. rewrite <- wrap_pointerLevels.
  exact (plug_propagates ctx v e Hd He).
Qed.

Lemma failure_unwinds_through_pointer_levels_witness :
  snd (validateConfigWithReflection
         (plug [ThroughPtr "Config";
                ThroughField "Config" [] "Servers" [] false [];
                ThroughPtr "";
                ThroughSlice "" [] [];
                ThroughField "Server" [] "Host" [] false [];
                ThroughPtr "string"]
            (Sample.str ""))) =
  Err (fold_right subFieldMsg
         "String Field: string, contains an empty string"
         ["Config"; ""; "string"]).
Proof.
  refine (failure_unwinds_through_pointer_levels
    [ThroughPtr "Config";
     ThroughField "Config" [] "Servers" [] false [];
     ThroughPtr "";
     ThroughSlice "" [] [];
     ThroughField "Server" [] "Host" [] false [];
     ThroughPtr "string"]
    (Sample.str "") _ _ _).
  - simpl. repeat split; constructor.
  - reflexivity.
Defined.

(** C5 as stated fails at a record level: the error of a failing field
    leaves the record handler exactly as it came in, with no context of
    the record or of the field. *)
Lemma record_level_adds_no_context :
  let host := Sample.required "Host" (Sample.strPtr "") in
  snd (validateConfigWithReflection (Value host)) =
    Err "Sub Field of string, failed to validate with error, String Field: string, contains an empty string" /\
  snd (validateConfigWithReflection (Struct "Server" [host])) =
    snd (validateConfigWithReflection (Value host)).
Proof. split; reflexivity. Qed.

(** ** Strings *)

Lemma builtin_string_fails_iff_empty (s : string) :
  (snd (validateConfigWithReflection (Str "string" s)) =
     Err (stringEmptyMsg "string") <-> s = ""%string) /\
  (snd (validateConfigWithReflection (Str "string" s)) = Ok <->
   s <> ""%string).
Proof.
  cbn [validateConfigWithReflection]. unfold handleString; simpl.
  destruct (String.eqb_spec s ""); simpl; split; split;
    try congruence; try discriminate.
Qed.

Lemma builtin_empty_string_fails_at_depth (ctx : list frame) :
  descends ctx (Str "string" "") ->
  snd (validateConfigWithReflection (plug ctx (Str "string" ""))) =
  Err (wrap ctx (stringEmptyMsg "string")).
Proof. intros Hd. now apply plug_propagates. Qed.

(** C4 on the code: a value of a defined string type, such as
    [type Hostname string], makes the string handler panic, empty or not,
    alone or behind a pointer, because [.(string)] asserts the built-in
    type. *)
Theorem defined_string_type_panics :
  validateConfigWithReflection (Sample.hostname "db1") =
    ([Call (Sample.hostname "db1")], Panic NotBuiltinString) /\
  snd (validateConfigWithReflection (Sample.hostname "")) =
    Panic NotBuiltinString /\
  snd (validateConfigWithReflection
         (Pointer "Hostname" None (Some (Sample.hostname "db1")))) =
    Panic NotBuiltinString.
Proof. repeat split. Qed.

Lemma handleString_defined_type (name s : string) :
  name <> "string"%string ->
  handleString name s = ret (Panic NotBuiltinString).
Proof.
  intros Hne. unfold handleString.
  destruct (String.eqb_spec name "string"); [contradiction | reflexivity].
Qed.

(** ** Download, decode, validate *)

(** C9: when [http.Get] fails, the status is not 200, or decoding fails,
    [DownloadJSONValidate] returns that error with an empty log: the
    dispatcher is never entered and the result does not depend on what the
    decoder left in the target.  The dispatcher runs, on the decoded target,
    only after a 200 response and a decode without error. *)
Theorem DownloadJSONValidate_validates_only_after_decode
    (w : World) (signedURL : string) (configStruct : value) :
  let run := DownloadJSONValidate w signedURL configStruct in
  (forall err, http_Get w signedURL = inr err -> run = ([], Err err)) /\
  (forall resp, http_Get w signedURL = inl resp ->
     http.StatusCode resp <> http.StatusOK ->
     run = ([], Err (downloadFailedMsg signedURL (http.StatusCode resp)))) /\
  (forall resp partial err, http_Get w signedURL = inl resp ->
     http.StatusCode resp = http.StatusOK ->
     json_Decode w (http.Body resp) configStruct = (partial, Some err) ->
     run = ([], Err (decodeFailedMsg err))) /\
  (forall resp decoded, http_Get w signedURL = inl resp ->
     http.StatusCode resp = http.StatusOK ->
     json_Decode w (http.Body resp) configStruct = (decoded, None) ->
     run = validateConfigWithReflection decoded) /\
  (fst run <> [] ->
   exists resp decoded,
     http_Get w signedURL = inl resp /\
     http.StatusCode resp = http.StatusOK /\
     json_Decode w (http.Body resp) configStruct = (decoded, None)).
Proof.
  intros run. unfold run, DownloadJSONValidate.
  destruct (http_Get w signedURL) as [resp | err0].
  - destruct (Z.eqb_spec (http.StatusCode resp) http.StatusOK) as [H200 | Hne];
      cbn [negb].
    + destruct (json_Decode w (http.Body resp) configStruct)
        as [tgt [derr |]] eqn:Hdec.
      * repeat split; try discriminate.
        -- intros r [= <-] Hr. contradiction.
        -- intros r p e [= <-] _ Hd. rewrite Hdec in Hd.
           injection Hd as _ <-. reflexivity.
        -- intros r d [= <-] _ Hd. rewrite Hdec in Hd. discriminate.
        -- intros Hlog. now contradiction Hlog.
      * repeat split; try discriminate.
        -- intros r [= <-] Hr. contradiction.
        -- intros r p e [= <-] _ Hd. rewrite Hdec in Hd. discriminate.
        -- intros r d [= <-] _ Hd. rewrite Hdec in Hd.
           injection Hd as <-. unfold andThen, ret.
           destruct (validateConfigWithReflection tgt) as [l []]; simpl;
             now rewrite ?app_nil_r.
        -- intros _. exists resp, tgt. auto.
    + repeat split; try discriminate.
      * intros r [= <-] _. reflexivity.
      * intros r p e [= <-] Hr. contradiction.
      * intros r d [= <-] Hr. contradiction.
      * intros Hlog. now contradiction Hlog.
  - repeat split; try discriminate.
    + intros e [= <-]. reflexivity.
    + intros Hlog. now contradiction Hlog.
Qed.

Lemma DownloadJSONValidate_validates_only_after_decode_witness :
  DownloadJSONValidate
    (Sample.world (inl {| http.StatusCode := 404; http.Body := "" |})
       (Sample.server "", None))
    "https://bucket/config.json" (Sample.server "") =
  ([], Err "Download of JSON failed, URL = https://bucket/config.json, Response Code = 404") /\
  DownloadJSONValidate
    (Sample.world (inl {| http.StatusCode := 200; http.Body := "{" |})
       (Sample.server "", Some "unexpected EOF"))
    "https://bucket/config.json" (Sample.server "") =
  ([], Err "Failed to decode JSON, with error, unexpected EOF") /\
  DownloadJSONValidate
    (Sample.world (inl {| http.StatusCode := 200; http.Body := "{}" |})
       (Sample.server "db1", None))
    "https://bucket/config.json" (Sample.server "") =
  validateConfigWithReflection (Sample.server "db1").
Proof.
  split; [|split].
  - refine (proj1 (proj2 (DownloadJSONValidate_validates_only_after_decode
      _ _ _)) {| http.StatusCode := 404; http.Body := "" |} _ _).
    + reflexivity.
    + discriminate.
  - refine (proj1 (proj2 (proj2
      (DownloadJSONValidate_validates_only_after_decode _ _ _)))
      {| http.StatusCode := 200; http.Body := "{" |}
      (Sample.server "") "unexpected EOF" _ _ _); reflexivity.
  - refine (proj1 (proj2 (proj2 (proj2
      (DownloadJSONValidate_validates_only_after_decode _ _ _))))
      {| http.StatusCode := 200; http.Body := "{}" |}
      (Sample.server "db1") _ _ _); reflexivity.
Defined.

(** ** The end-to-end scenario of the specification *)

(** [Name] is checked first and fails; [Servers] is never reached. *)
Example scenario_name_fails_first :
  snd (validateConfigWithReflection
         (Struct "Config"
            [Sample.required "Name" (Sample.strPtr "");
             Sample.optional "Tags" (Pointer "" None None);
             Sample.required "Servers"
               (Pointer "" None (Some (Slice "" (Some [Sample.server ""]))))]))
  = Err (subFieldMsg "string" (stringEmptyMsg "string")).
Proof. reflexivity. Qed.

(** With a name, the failure is that of [Host] in the first server. *)
Example scenario_host_fails :
  snd (validateConfigWithReflection
         (Struct "Config"
            [Sample.required "Name" (Sample.strPtr "ok");
             Sample.optional "Tags" (Pointer "" None None);
             Sample.required "Servers"
               (Pointer "" None (Some (Slice "" (Some [Sample.server ""]))))]))
  = Err (subFieldMsg "" (subFieldMsg "string" (stringEmptyMsg "string"))).
Proof. reflexivity. Qed.

(** ** When validation succeeds *)

Section Outcomes.

Variable V : value -> result.

Lemma snd_andThen (r k : result) :
  snd (andThen r k) = match snd r with
                      | Ok => snd k
                      | o => o
                      end.
Proof. unfold andThen. destruct r as [l []]; reflexivity. Qed.

(** The result of the record loop, one field at a time. *)
Lemma snd_handleStruct_cons (f : field) (rest : list field) :
  snd (handleStruct V (f :: rest)) =
  match IsNil f with
  | None => Panic IsNilOnNonNilable
  | Some true =>
      if Optional (readTags f) then snd (handleStruct V rest)
      else Err (notSetMsg (Name f))
  | Some false =>
      if Exported f then
        match snd (V (Value f)) with
        | Ok => snd (handleStruct V rest)
        | o => o
        end
      else Panic InterfaceOnUnexported
  end.
Proof.
  cbn [handleStruct]; cbv zeta.
  destruct (IsNil f) as [[|]|] eqn:Hnil; [| |reflexivity].
  - destruct (Optional (readTags f)); reflexivity.
  - cbn [andb]. destruct (Exported f); [|reflexivity].
    rewrite (IsNil_false_not_nil_interface _ Hnil). cbn [negb andb].
    apply snd_andThen.
Qed.

Lemma handleStruct_ok_all_pass (fields : list field) :
  snd (handleStruct V fields) = Ok -> Forall (fieldPasses V) fields.
Proof.
  induction fields as [|f rest IH]; [constructor|].
  rewrite snd_handleStruct_cons.
  destruct (IsNil f) as [[|]|] eqn:Hnil; [| |discriminate].
  - destruct (Optional (readTags f)) eqn:Hopt; [|discriminate].
    intros Hrest. constructor; [left; now split | exact (IH Hrest)].
  - destruct (Exported f) eqn:Hexp; [|discriminate].
    destruct (snd (V (Value f))) eqn:Hv; try discriminate.
    intros Hrest.
    constructor; [right; split; [|split]; assumption | exact (IH Hrest)].
Qed.

Lemma elemsLoop_ok_all_pass (xs : list value) :
  snd (elemsLoop V xs) = Ok -> Forall (valuePasses V) xs.
Proof.
  induction xs as [|x rest IH]; [constructor|].
  cbn [elemsLoop]. rewrite snd_andThen.
  destruct (snd (V x)) eqn:Hx; try discriminate.
  intros Hrest. constructor; [exact Hx | exact (IH Hrest)].
Qed.

Lemma entriesLoop_ok_all_pass (es : list (value * value)) :
  snd (entriesLoop V es) = Ok ->
  Forall (fun kv => valuePasses V (snd kv)) es.
Proof.
  rewrite entriesLoop_values. intros Hok.
  apply elemsLoop_ok_all_pass in Hok.
  exact (proj1 (Forall_map snd (valuePasses V) es) Hok).
Qed.

(** Where an error of a loop comes from. *)
Lemma handleStruct_err_origin (fields : list field) (e : string) :
  snd (handleStruct V fields) = Err e ->
  exists f, In f fields /\
    (e = notSetMsg (Name f) \/ snd (V (Value f)) = Err e).
Proof.
  induction fields as [|f rest IH]; [discriminate|].
  rewrite snd_handleStruct_cons.
  assert (Hlater : snd (handleStruct V rest) = Err e ->
            exists g, In g (f :: rest) /\
              (e = notSetMsg (Name g) \/ snd (V (Value g)) = Err e)).
  { intros Hr. destruct (IH Hr) as [g [Hin Hg]].
    exists g. split; [now right | exact Hg]. }
  destruct (IsNil f) as [[|]|]; [| |discriminate].
  - destruct (Optional (readTags f)); [exact Hlater|].
    intros [= <-]. exists f. split; [now left | now left].
  - destruct (Exported f); [|discriminate].
    destruct (snd (V (Value f))) eqn:Hv; [exact Hlater | | discriminate].
    intros [= <-]. exists f. split; [now left | now right].
Qed.

Lemma elemsLoop_err_origin (xs : list value) (e : string) :
  snd (elemsLoop V xs) = Err e -> exists x, In x xs /\ snd (V x) = Err e.
Proof.
  induction xs as [|x rest IH]; [discriminate|].
  cbn [elemsLoop]. rewrite snd_andThen.
  destruct (snd (V x)) eqn:Hx; [| |discriminate].
  - intros Hr. destruct (IH Hr) as [y [Hin Hy]].
    exists y. split; [now right | exact Hy].
  - intros [= <-]. exists x. split; [now left | exact Hx].
Qed.

End Outcomes.

(** X1: validating a record succeeds exactly when every field passes: it
    is nil and tagged optional, or it is not nil, exported and its value
    validates.  So a nil error from a record means no required field is
    nil and no field faulted. *)
Theorem record_succeeds_iff_every_field_passes
    (name : string) (fields : list field) :
  snd (validateConfigWithReflection (Struct name fields)) = Ok <->
  Forall (fieldPasses validateConfigWithReflection) fields.
Proof.
  cbn [validateConfigWithReflection]. unfold log. cbn [snd]. split.
  - apply handleStruct_ok_all_pass.
  - intros Hall. rewrite <- (app_nil_r fields).
    rewrite (handleStruct_past _ _ _ Hall). reflexivity.
Qed.

(** X2: validating a slice, an array or a map succeeds exactly when it has
    at least one element and every element (every value, for a map)
    validates; a nil slice or map never succeeds. *)
Theorem collection_succeeds_iff_nonempty_and_all_pass (name : string) :
  let V := validateConfigWithReflection in
  (forall elems, snd (V (Slice name elems)) = Ok <->
     exists xs, elems = Some xs /\ xs <> [] /\ Forall (valuePasses V) xs) /\
  (forall xs, snd (V (Array name xs)) = Ok <->
     xs <> [] /\ Forall (valuePasses V) xs) /\
  (forall entries, snd (V (Map name entries)) = Ok <->
     exists es, entries = Some es /\ es <> [] /\
       Forall (valuePasses V) (map snd es)).
Proof.
  intros V. unfold V. split; [|split].
  - intros elems. cbn [validateConfigWithReflection].
    unfold log, handleArraySlice. cbn [snd]. split.
    + destruct elems as [[|x xs]|]; cbn [Len List.length Nat.leb snd ret];
        try discriminate.
      intros Hok. exists (x :: xs). split; [reflexivity|].
      split; [discriminate | now apply elemsLoop_ok_all_pass].
    + intros [xs [-> [Hne Hall]]]. destruct xs as [|x xs]; [congruence|].
      cbn [Len List.length Nat.leb]. rewrite <- (app_nil_r (x :: xs)).
      rewrite (elemsLoop_past _ _ _ Hall). reflexivity.
  - intros xs. cbn [validateConfigWithReflection].
    unfold log, handleArraySlice. cbn [snd]. split.
    + destruct xs as [|x xs]; cbn [Len List.length Nat.leb snd ret];
        try discriminate.
      intros Hok. split; [discriminate | now apply elemsLoop_ok_all_pass].
    + intros [Hne Hall]. destruct xs as [|x xs]; [congruence|].
      cbn [Len List.length Nat.leb]. rewrite <- (app_nil_r (x :: xs)).
      rewrite (elemsLoop_past _ _ _ Hall). reflexivity.
  - intros entries. cbn [validateConfigWithReflection].
    unfold log, handleMap. cbn [snd]. split.
    + destruct entries as [[|e es]|]; cbn [Len List.length Nat.leb snd ret];
        try discriminate.
      intros Hok. exists (e :: es). split; [reflexivity|].
      split; [discriminate|]. apply Forall_map.
      now apply entriesLoop_ok_all_pass.
    + intros [es [-> [Hne Hall]]]. destruct es as [|e es]; [congruence|].
      cbn [Len List.length Nat.leb]. rewrite entriesLoop_values.
      rewrite <- (app_nil_r (map snd (e :: es))).
      rewrite (elemsLoop_past _ _ _ Hall). reflexivity.
Qed.

Lemma Forall_middle {A : Type} (P : A -> Prop) (pre post : list A) (x : A) :
  Forall P (pre ++ x :: post) -> P x.
Proof.
  intros Hall. apply Forall_app in Hall. destruct Hall as [_ Hx].
  now inversion Hx.
Qed.

Lemma fill_ok_child (fr : frame) (u : value) :
  entered fr u ->
  snd (validateConfigWithReflection (fill fr u)) = Ok ->
  snd (validateConfigWithReflection u) = Ok.
Proof.
  intros Hent.
  destruct fr as [elem | name pre fname tag iface post | name pre post
                 | name pre post | name pre key post];
    cbn [fill validateConfigWithReflection]; unfold log; cbn [snd].
  - unfold handlePtr, wrapErr.
    destruct (validateConfigWithReflection u) as [l []]; cbn [snd fst];
      intros Hok; (exact Hok || discriminate Hok).
  - intros Hok. apply handleStruct_ok_all_pass in Hok.
    apply Forall_middle in Hok.
    destruct Hok as [[Hnil _] | [_ [_ Hv]]]; [|exact Hv].
    simpl in Hent. contradiction.
  - unfold handleArraySlice, Len. rewrite length_app_cons_pos. cbn [snd].
    intros Hok. apply elemsLoop_ok_all_pass in Hok.
    exact (Forall_middle _ _ _ _ Hok).
  - unfold handleArraySlice, Len. rewrite length_app_cons_pos. cbn [snd].
    intros Hok. apply elemsLoop_ok_all_pass in Hok.
    exact (Forall_middle _ _ _ _ Hok).
  - unfold handleMap, Len. rewrite length_app_cons_pos.
    intros Hok. apply entriesLoop_ok_all_pass in Hok.
    exact (Forall_middle _ _ _ _ Hok).
Qed.

Lemma plug_ok_child (ctx : list frame) (v : value) :
  enteredAll ctx v ->
  snd (validateConfigWithReflection (plug ctx v)) = Ok ->
  snd (validateConfigWithReflection v) = Ok.
Proof.
  induction ctx as [|fr inner IH]; simpl; [auto|].
  intros [Hent Hinner] Hok.
  exact (IH Hinner (fill_ok_child fr _ Hent Hok)).
Qed.

(** X3: success is inherited.  When validating a graph succeeds, every
    value the traversal goes into validates on its own: every target of a
    pointer without [Validate], every field that is not nil, every element
    and every map value, at any depth. *)
Theorem success_is_hereditary (ctx : list frame) (v : value) :
  enteredAll ctx v ->
  snd (validateConfigWithReflection (plug ctx v)) = Ok ->
  snd (validateConfigWithReflection v) = Ok.
Proof. exact (plug_ok_child ctx v). Qed.

Lemma success_is_hereditary_witness :
  snd (validateConfigWithReflection (Sample.str "db1")) = Ok.
Proof.
  refine (success_is_hereditary Sample2.toHost (Sample.str "db1") _ _).
  - simpl. repeat split; discriminate.
  - reflexivity.
Defined.

(** X4: what a nil error guarantees about the graph.  At every place the
    traversal goes into: a string is of the built-in type and not empty; a
    slice, an array or a map has an element; a pointer without [Validate]
    is not nil; a pointer with [Validate] has it answer nil; and in a
    record every nil field is tagged optional and no field is of a kind
    without nil. *)
Theorem validated_graph_is_populated (ctx : list frame) (v : value) :
  enteredAll ctx v ->
  snd (validateConfigWithReflection (plug ctx v)) = Ok ->
  match v with
  | Nil => False
  | Str name s => name = "string"%string /\ s <> ""%string
  | Slice _ elems => exists x xs, elems = Some (x :: xs)
  | Array _ elems => elems <> []
  | Map _ entries => exists e es, entries = Some (e :: es)
  | Pointer _ None target => target <> None
  | Pointer _ (Some verdict) _ => verdict = Pass
  | Struct _ fields =>
      forall f, In f fields ->
        (IsNil f = Some true /\ Optional (readTags f) = true) \/
        (IsNil f = Some false /\ Exported f = true)
  | Other _ _ _ => True
  end.
Proof.
  intros Hent Hok. pose proof (plug_ok_child ctx v Hent Hok) as Hv.
  clear Hent Hok. destruct v as [|elem [verdict|] target | name fields
    | name elems | name elems | name entries | name s | k name bits];
    cbn [validateConfigWithReflection] in Hv; unfold log in Hv;
    cbn [snd] in Hv.
  - discriminate.
  - destruct verdict; simpl in Hv; (discriminate || reflexivity).
  - destruct target; simpl in Hv; [discriminate | discriminate Hv].
  - intros f Hin. apply handleStruct_ok_all_pass in Hv.
    rewrite Forall_forall in Hv. specialize (Hv f Hin).
    destruct Hv as [H | [Hnil [Hexp _]]]; [now left | now right].
  - destruct elems as [[|x xs]|]; simpl in Hv; try discriminate. eauto.
  - destruct elems; simpl in Hv; discriminate.
  - destruct entries as [[|e es]|]; simpl in Hv; try discriminate. eauto.
  - unfold handleString in Hv.
    destruct (String.eqb_spec name "string"); [|discriminate].
    destruct (String.eqb_spec s ""); [discriminate|]. now split.
  - exact I.
Qed.

Lemma validated_graph_is_populated_witness :
  "string"%string = "string"%string /\ "db1"%string <> ""%string.
Proof.
  refine (validated_graph_is_populated Sample2.toHost (Sample.str "db1") _ _).
  - simpl. repeat split; discriminate.
  - reflexivity.
Defined.

(** ** What the result depends on *)

Lemma snd_wrapErr (w : string -> string) (r : result) :
  snd (wrapErr w r) = match snd r with
                      | Err e => Err (w e)
                      | o => o
                      end.
Proof. unfold wrapErr. destruct r as [l []]; reflexivity. Qed.

Lemma handleStruct_outcome_congr (V : value -> result)
    (pre post : list field) (f f' : field) :
  Name f = Name f' -> Tag f = Tag f' -> Exported f = Exported f' ->
  IsNil f = IsNil f' ->
  snd (V (Value f)) = snd (V (Value f')) ->
  snd (handleStruct V (pre ++ f :: post)) =
  snd (handleStruct V (pre ++ f' :: post)).
Proof.
  intros Hname Htag Hexp Hnil Hv.
  induction pre as [|g pre IH]; cbn [app]; rewrite !snd_handleStruct_cons.
  - unfold readTags. now rewrite Hname, Htag, Hexp, Hnil, Hv.
  - now rewrite IH.
Qed.

Lemma elemsLoop_outcome_congr (V : value -> result)
    (pre post : list value) (u u' : value) :
  snd (V u) = snd (V u') ->
  snd (elemsLoop V (pre ++ u :: post)) =
  snd (elemsLoop V (pre ++ u' :: post)).
Proof.
  intros Hv.
  induction pre as [|g pre IH]; cbn [app elemsLoop]; rewrite !snd_andThen.
  - now rewrite Hv.
  - now rewrite IH.
Qed.

Lemma map_snd_middle (pre post : list (value * value)) (k u : value) :
  map snd (pre ++ (k, u) :: post) = map snd pre ++ u :: map snd post.
Proof. now rewrite map_app. Qed.

Lemma fill_outcome_congr (fr : frame) (u u' : value) :
  sameNilness u u' ->
  snd (validateConfigWithReflection u) =
  snd (validateConfigWithReflection u') ->
  snd (validateConfigWithReflection (fill fr u)) =
  snd (validateConfigWithReflection (fill fr u')).
Proof.
  intros Hnil Hv.
  destruct fr as [elem | name pre fname tag iface post | name pre post
                 | name pre post | name pre key post];
    cbn [fill validateConfigWithReflection]; unfold log; cbn [snd].
  - unfold handlePtr. rewrite !snd_wrapErr. now rewrite Hv.
  - apply handleStruct_outcome_congr; try reflexivity; [apply Hnil | exact Hv].
  - unfold handleArraySlice, Len. rewrite !length_app_cons_pos. cbn [snd].
    now apply elemsLoop_outcome_congr.
  - unfold handleArraySlice, Len. rewrite !length_app_cons_pos. cbn [snd].
    now apply elemsLoop_outcome_congr.
  - unfold handleMap, Len. rewrite !length_app_cons_pos.
    rewrite !entriesLoop_values, !map_snd_middle.
    now apply elemsLoop_outcome_congr.
Qed.

Lemma sameNilness_fill (fr : frame) (u u' : value) :
  sameNilness (fill fr u) (fill fr u').
Proof.
  intros name tag exported iface. unfold IsNil; cbn [IsInterface Value].
  destruct iface, fr; reflexivity.
Qed.

Lemma sameNilness_plug (ctx : list frame) (u u' : value) :
  sameNilness u u' -> sameNilness (plug ctx u) (plug ctx u').
Proof.
  destruct ctx as [|fr inner]; simpl; [auto|].
  intros _. apply sameNilness_fill.
Qed.

Lemma plug_outcome_congr (ctx : list frame) (u u' : value) :
  sameNilness u u' ->
  snd (validateConfigWithReflection u) =
  snd (validateConfigWithReflection u') ->
  snd (validateConfigWithReflection (plug ctx u)) =
  snd (validateConfigWithReflection (plug ctx u')).
Proof.
  intros Hnil Hv. induction ctx as [|fr inner IH]; simpl; [exact Hv|].
  apply fill_outcome_congr; [now apply sameNilness_plug | exact IH].
Qed.

(** X5: the result of validating a graph depends on a part of it only
    through that part's own result and whether it is nil: putting, at any
    place and any depth, a value with the same result and the same
    nilness in place of another leaves the result of the whole as it was,
    whatever comes before or after that place. *)
Theorem outcome_depends_only_on_part_outcome
    (ctx : list frame) (u u' : value) :
  sameNilness u u' ->
  snd (validateConfigWithReflection u) =
  snd (validateConfigWithReflection u') ->
  snd (validateConfigWithReflection (plug ctx u)) =
  snd (validateConfigWithReflection (plug ctx u')).
Proof. exact (plug_outcome_congr ctx u u'). Qed.

Lemma outcome_depends_only_on_part_outcome_witness :
  snd (validateConfigWithReflection
         (plug Sample2.toDb (Sample2.host Pass ""))) =
  snd (validateConfigWithReflection
         (plug Sample2.toDb (Sample.strPtr "db1"))).
Proof.
  refine (outcome_depends_only_on_part_outcome Sample2.toDb
            (Sample2.host Pass "") (Sample.strPtr "db1") _ _).
  - intros name tag exported iface. reflexivity.
  - reflexivity.
Defined.

(** X6: a [Validate] method shields what is behind its pointer at any
    depth: the result of validating a graph does not depend on what a
    pointer with [Validate] points to, only on what [Validate] answers. *)
Theorem validater_shields_target_at_depth
    (ctx : list frame) (elem : string) (v : verdict) (target target' : value) :
  snd (validateConfigWithReflection
         (plug ctx (Pointer elem (Some v) (Some target)))) =
  snd (validateConfigWithReflection
         (plug ctx (Pointer elem (Some v) (Some target')))).
Proof.
  apply plug_outcome_congr.
  - intros name tag exported iface. reflexivity.
  - reflexivity.
Qed.

(** X7: validation is blind to content.  At any depth, one non-empty
    string can stand for another of the same type (there is no trimming
    and no look at the characters), and a number, boolean or other scalar
    can take any value, zero included, without a change in the result. *)
Theorem content_does_not_matter (ctx : list frame) :
  (forall name s s', s <> ""%string -> s' <> ""%string ->
     snd (validateConfigWithReflection (plug ctx (Str name s))) =
     snd (validateConfigWithReflection (plug ctx (Str name s')))) /\
  (forall k name bits bits', reflect.leafNilable k = false ->
     snd (validateConfigWithReflection (plug ctx (Other k name bits))) =
     snd (validateConfigWithReflection (plug ctx (Other k name bits')))).
Proof.
  split.
  - intros name s s' Hs Hs'. apply plug_outcome_congr.
    + intros n t e i. reflexivity.
    + cbn [validateConfigWithReflection]. unfold log, handleString.
      cbn [snd]. destruct (String.eqb name "string"); [|reflexivity].
      destruct (String.eqb_spec s ""), (String.eqb_spec s' "");
        try contradiction; reflexivity.
  - intros k name bits bits' Hk. apply plug_outcome_congr.
    + intros n t e i. unfold IsNil; cbn [IsInterface Value].
      destruct i; [reflexivity|]. now rewrite Hk.
    + reflexivity.
Qed.

Lemma content_does_not_matter_witness :
  snd (validateConfigWithReflection (plug Sample2.toHost (Sample.str " "))) =
  snd (validateConfigWithReflection (plug Sample2.toHost (Sample.str "db1"))).
Proof.
  refine (proj1 (content_does_not_matter Sample2.toHost)
            "string"%string " "%string "db1"%string _ _); discriminate.
Defined.

(** X8: the [optional] tag matters for a nil field only.  On a field that
    is not nil the record handler does the same with any tag: the field's
    value is validated all the same. *)
Theorem tag_ignored_on_set_field
    (pre post : list field) (f : field) (tag : StructTag) :
  IsNil f = Some false ->
  handleStruct validateConfigWithReflection (pre ++ f :: post) =
  handleStruct validateConfigWithReflection (pre ++ withTag tag f :: post).
Proof.
  intros Hnil.
  assert (Hnil' : IsNil (withTag tag f) = Some false) by exact Hnil.
  induction pre as [|g pre IH]; cbn [app handleStruct]; cbv zeta.
  - rewrite Hnil, Hnil'. reflexivity.
  - now rewrite IH.
Qed.

Lemma tag_ignored_on_set_field_witness :
  handleStruct validateConfigWithReflection
    ([Sample.optional "Tags" Sample.nilStrPtr] ++
     Sample.required "Host" (Sample.strPtr "") :: []) =
  handleStruct validateConfigWithReflection
    ([Sample.optional "Tags" Sample.nilStrPtr] ++
     withTag Sample.optionalTag (Sample.required "Host" (Sample.strPtr ""))
     :: []).
Proof.
  apply (tag_ignored_on_set_field
           [Sample.optional "Tags" Sample.nilStrPtr] []
           (Sample.required "Host" (Sample.strPtr "")) Sample.optionalTag).
  reflexivity.
Defined.

(** ** Panics and the shape of errors *)

Lemma fill_propagates_panic (fr : frame) (u : value) (p : panic) :
  reaches fr u ->
  snd (validateConfigWithReflection u) = Panic p ->
  snd (validateConfigWithReflection (fill fr u)) = Panic p.
Proof.
  intros Hreach Hp.
  assert (Hstop : snd (validateConfigWithReflection u) <> Ok) by congruence.
  destruct fr as [elem | name pre fname tag iface post | name pre post
                 | name pre post | name pre key post];
    cbn [fill validateConfigWithReflection]; simpl in Hreach.
  - unfold handlePtr, log. cbn [snd]. rewrite snd_wrapErr. now rewrite Hp.
  - destruct Hreach as [Hpre Hnil].
    rewrite (handleStruct_past _ _ _ Hpre). cbn [handleStruct]; cbv zeta.
    pose proof (IsNil_false_not_nil_interface _ Hnil) as Hi.
    rewrite Hnil. cbn [Exported Value] in *. rewrite Hi.
    cbn [negb andb]. rewrite (andThen_stop _ _ Hstop). exact Hp.
  - rewrite (handleArraySlice_stops _ _ _ _ _ Hreach Hstop). exact Hp.
  - rewrite (handleArraySlice_stops _ _ _ _ _ Hreach Hstop). exact Hp.
  - rewrite (handleMap_stops _ _ _ _ _ Hreach Hstop). exact Hp.
Qed.

(** X9: a panic is never caught and never turned into an error.  When the
    traversal gets to a value on which validation panics, validating the
    whole graph panics in the same way; no level, a pointer level
    included, wraps or replaces it. *)
Theorem panic_reaches_the_caller (ctx : list frame) (v : value) (p : panic) :
  descends ctx v ->
  snd (validateConfigWithReflection v) = Panic p ->
  snd (validateConfigWithReflection (plug ctx v)) = Panic p.
Proof.
  intros Hd Hp. induction ctx as [|fr inner IH]; simpl; [exact Hp|].
  destruct Hd as [Hreach Hinner].
  apply fill_propagates_panic; [exact Hreach | exact (IH Hinner)].
Qed.

Lemma panic_reaches_the_caller_witness :
  snd (validateConfigWithReflection
         (plug Sample2.toHost (Sample.hostname "db1"))) =
  Panic NotBuiltinString.
Proof.
  refine (panic_reaches_the_caller Sample2.toHost (Sample.hostname "db1")
            NotBuiltinString _ _).
  - simpl. repeat split; constructor.
  - reflexivity.
Defined.

(** Induction on a value graph, with the children of a record, a sequence
    and a map all at hand. *)
Lemma value_nested_ind (P : value -> Prop) :
  P Nil ->
  (forall elem validater, P (Pointer elem validater None)) ->
  (forall elem validater t, P t -> P (Pointer elem validater (Some t))) ->
  (forall name fields,
     Forall (fun f => P (Value f)) fields -> P (Struct name fields)) ->
  (forall name, P (Slice name None)) ->
  (forall name xs, Forall P xs -> P (Slice name (Some xs))) ->
  (forall name xs, Forall P xs -> P (Array name xs)) ->
  (forall name, P (Map name None)) ->
  (forall name es,
     Forall (fun kv => P (snd kv)) es -> P (Map name (Some es))) ->
  (forall name s, P (Str name s)) ->
  (forall k name bits, P (Other k name bits)) ->
  forall c, P c.
Proof.
  intros HNil HPtrNil HPtr HStruct HSliceNil HSlice HArray HMapNil HMap
    HStr HOther.
  fix IH 1. intros c.
  destruct c as [|elem validater [t|] | name fields | name [xs|] | name xs
                | name [es|] | name s | k name bits].
  - exact HNil.
  - apply HPtr, IH.
  - apply HPtrNil.
  - apply HStruct. induction fields as [|f fs IHf]; constructor;
      [apply IH | exact IHf].
  - apply HSlice. induction xs as [|x xs IHx]; constructor;
      [apply IH | exact IHx].
  - apply HSliceNil.
  - apply HArray. induction xs as [|x xs IHx]; constructor;
      [apply IH | exact IHx].
  - apply HMap. induction es as [|[k x] es IHe]; constructor;
      [apply IH | exact IHe].
  - apply HMapNil.
  - apply HStr.
  - apply HOther.
Qed.

Lemma handleArraySlice_err_origin (c : value) (name : string)
    (elems : option (list value)) (e : string) :
  snd (handleArraySlice validateConfigWithReflection c name elems) = Err e ->
  e = sliceEmptyMsg name \/
  exists xs x, elems = Some xs /\ In x xs /\
    snd (validateConfigWithReflection x) = Err e.
Proof.
  unfold handleArraySlice, log. cbn [snd].
  destruct elems as [[|x xs]|]; cbn [Len List.length Nat.leb snd ret].
  - intros [= <-]. now left.
  - intros He. apply elemsLoop_err_origin in He.
    destruct He as [y [Hin Hy]]. right. exists (x :: xs), y. auto.
  - intros [= <-]. now left.
Qed.

Lemma handleMap_err_origin (name : string)
    (entries : option (list (value * value))) (e : string) :
  snd (handleMap validateConfigWithReflection name entries) = Err e ->
  e = mapEmptyMsg name \/
  exists es kv, entries = Some es /\ In kv es /\
    snd (validateConfigWithReflection (snd kv)) = Err e.
Proof.
  unfold handleMap.
  destruct entries as [[|kv es]|]; cbn [Len List.length Nat.leb snd ret].
  - intros [= <-]. now left.
  - rewrite entriesLoop_values. intros He.
    apply elemsLoop_err_origin in He. destruct He as [y [Hin Hy]].
    apply in_map_iff in Hin. destruct Hin as [kv' [<- Hin]].
    right. exists (kv :: es), kv'. auto.
  - intros [= <-]. now left.
Qed.

(** X10: the shape of every error.  An error that validation returns is
    one of the five messages the handlers make (a field not set, an empty
    slice or array, an empty map, an empty string, a failed [Validate])
    with zero or more ["Sub Field of <elem>, failed to validate with
    error, "] in front of it, one for each pointer it came up through;
    nothing else is ever added or changed. *)
Theorem every_error_is_a_leaf_message_behind_pointer_prefixes
    (c : value) (e : string) :
  snd (validateConfigWithReflection c) = Err e ->
  exists elems base,
    leafMsg base /\ e = fold_right subFieldMsg base elems.
Proof.
  revert e. induction c using value_nested_ind; intros e;
    cbn [validateConfigWithReflection]; unfold log; cbn [snd].
  - discriminate.
  - destruct validater as [[| err |]|]; simpl; try discriminate.
    intros [= <-]. exists [], (validaterMsg elem err).
    split; [constructor | reflexivity].
  - destruct validater as [[| err |]|]; simpl; try discriminate.
    + intros [= <-]. exists [], (validaterMsg elem err).
      split; [constructor | reflexivity].
    + rewrite snd_wrapErr.
      destruct (snd (validateConfigWithReflection c)) as [| e' |] eqn:Hc;
        try discriminate.
      intros [= <-]. destruct (IHc e' eq_refl) as [elems [base [Hb ->]]].
      exists (elem :: elems), base. split; [exact Hb | reflexivity].
  - intros He. apply handleStruct_err_origin in He.
    destruct He as [f [Hin [-> | Hf]]].
    + exists [], (notSetMsg (Name f)). split; [constructor | reflexivity].
    + rewrite Forall_forall in H. exact (H f Hin e Hf).
  - intros He. apply handleArraySlice_err_origin in He.
    destruct He as [-> | [xs [x [Hxs _]]]]; [|discriminate].
    exists [], (sliceEmptyMsg name). split; [constructor | reflexivity].
  - intros He. apply handleArraySlice_err_origin in He.
    destruct He as [-> | [ys [x [[= <-] [Hin Hx]]]]].
    + exists [], (sliceEmptyMsg name). split; [constructor | reflexivity].
    + rewrite Forall_forall in H. exact (H x Hin e Hx).
  - intros He. apply handleArraySlice_err_origin in He.
    destruct He as [-> | [ys [x [[= <-] [Hin Hx]]]]].
    + exists [], (sliceEmptyMsg name). split; [constructor | reflexivity].
    + rewrite Forall_forall in H. exact (H x Hin e Hx).
  - intros He. apply handleMap_err_origin in He.
    destruct He as [-> | [es [kv [Hes _]]]]; [|discriminate].
    exists [], (mapEmptyMsg name). split; [constructor | reflexivity].
  - intros He. apply handleMap_err_origin in He.
    destruct He as [-> | [ys [kv [[= <-] [Hin Hx]]]]].
    + exists [], (mapEmptyMsg name). split; [constructor | reflexivity].
    + rewrite Forall_forall in H. exact (H kv Hin e Hx).
  - unfold handleString.
    destruct (String.eqb_spec name "string") as [-> |]; [|discriminate].
    destruct (String.eqb s ""); [|discriminate].
    intros [= <-]. exists [], (stringEmptyMsg "string").
    split; [constructor | reflexivity].
  - discriminate.
Qed.

Lemma every_error_is_a_leaf_message_behind_pointer_prefixes_witness :
  exists elems base,
    leafMsg base /\
    "Sub Field of string, failed to validate with error, String Field: string, contains an empty string"%string
    = fold_right subFieldMsg base elems.
Proof.
  apply (every_error_is_a_leaf_message_behind_pointer_prefixes
           (Sample.strPtr "")).
  reflexivity.
Defined.

(** ** What a nil error of the entry points means *)

(** X11: [DownloadJSONValidate] returns nil only when the fetch answered
    with status 200, the body decoded without error, and the decoded
    target validated. *)
Theorem DownloadJSONValidate_nil_means_validated
    (w : World) (signedURL : string) (configStruct : value) :
  snd (DownloadJSONValidate w signedURL configStruct) = Ok ->
  exists resp decoded,
    http_Get w signedURL = inl resp /\
    http.StatusCode resp = http.StatusOK /\
    json_Decode w (http.Body resp) configStruct = (decoded, None) /\
    snd (validateConfigWithReflection decoded) = Ok.
Proof.
  unfold DownloadJSONValidate.
  destruct (http_Get w signedURL) as [resp | err]; [|discriminate].
  destruct (Z.eqb_spec (http.StatusCode resp) http.StatusOK) as [H200 | Hne];
    cbn [negb]; [|discriminate].
  destruct (json_Decode w (http.Body resp) configStruct)
    as [decoded [derr |]] eqn:Hdec; [discriminate|].
  rewrite snd_andThen. intros Hok. exists resp, decoded.
  repeat split; try assumption.
  destruct (snd (validateConfigWithReflection decoded));
    [reflexivity | discriminate | discriminate].
Qed.

Lemma DownloadJSONValidate_nil_means_validated_witness :
  exists resp decoded,
    http_Get (Sample.world
                (inl {| http.StatusCode := 200; http.Body := "{}" |})
                (Sample.server "db1", None)) "https://bucket/config.json"
      = inl resp /\
    http.StatusCode resp = http.StatusOK /\
    json_Decode (Sample.world
                   (inl {| http.StatusCode := 200; http.Body := "{}" |})
                   (Sample.server "db1", None)) (http.Body resp)
      (Sample.server "") = (decoded, None) /\
    snd (validateConfigWithReflection decoded) = Ok.
Proof.
  apply (DownloadJSONValidate_nil_means_validated
           (Sample.world (inl {| http.StatusCode := 200; http.Body := "{}" |})
              (Sample.server "db1", None))
           "https://bucket/config.json" (Sample.server "")).
  reflexivity.
Defined.

(** X12: [LoadConfigFromS3] signs with the default expiry of 60 and then
    downloads.  It returns nil only when the URL was signed, the fetch of
    the signed URL answered 200, the body decoded and the target
    validated; and when signing fails it returns that error with nothing
    fetched or validated, the same in every world. *)
Theorem LoadConfigFromS3_nil_means_signed_fetched_validated
    (AWSRegion : Type)
    (BuildSignedS3URL : string -> AWSRegion -> Z -> string -> sum string string)
    (w : World) (configURL : string) (configRegion : AWSRegion)
    (configEndpoint : string) (configStruct : value) :
  let run := LoadConfigFromS3 AWSRegion BuildSignedS3URL w configURL
               configRegion configEndpoint configStruct in
  (snd run = Ok ->
   exists signedURL resp decoded,
     BuildSignedS3URL configURL configRegion 60%Z configEndpoint =
       inl signedURL /\
     http_Get w signedURL = inl resp /\
     http.StatusCode resp = http.StatusOK /\
     json_Decode w (http.Body resp) configStruct = (decoded, None) /\
     snd (validateConfigWithReflection decoded) = Ok) /\
  (forall err,
     BuildSignedS3URL configURL configRegion 60%Z configEndpoint = inr err ->
     forall w', LoadConfigFromS3 AWSRegion BuildSignedS3URL w' configURL
                  configRegion configEndpoint configStruct = ([], Err err)).
Proof.
  intros run. unfold run, LoadConfigFromS3, DEFAULT_S3_EXPIRY. split.
  - destruct (BuildSignedS3URL configURL configRegion 60%Z configEndpoint)
      as [signedURL | err]; [|discriminate].
    intros Hok. unfold DownloadJSONValidate in Hok.
    destruct (http_Get w signedURL) as [resp | gerr] eqn:Hget;
      [|discriminate].
    destruct (Z.eqb_spec (http.StatusCode resp) http.StatusOK)
      as [H200 | Hne]; cbn [negb] in Hok; [|discriminate].
    destruct (json_Decode w (http.Body resp) configStruct)
      as [decoded [derr |]] eqn:Hdec; [discriminate|].
    rewrite snd_andThen in Hok. exists signedURL, resp, decoded.
    repeat split; try assumption.
    destruct (snd (validateConfigWithReflection decoded));
      [reflexivity | discriminate | discriminate].
  - intros err Herr w'. now rewrite Herr.
Qed.

Lemma LoadConfigFromS3_nil_means_signed_fetched_validated_witness :
  LoadConfigFromS3 unit (Sample2.signer (inr "bad bucket"))
    (Sample.world (inl {| http.StatusCode := 200; http.Body := "{}" |})
       (Sample.server "db1", None))
    "s3://bucket/config.json" tt DEFAULT_S3_ENDPOINT (Sample.server "") =
  ([], Err "bad bucket").
Proof.
  refine (proj2 (LoadConfigFromS3_nil_means_signed_fetched_validated
    unit (Sample2.signer (inr "bad bucket"))
    (Sample.world (inr "unreachable") (Nil, None))
    "s3://bucket/config.json" tt DEFAULT_S3_ENDPOINT (Sample.server ""))
    "bad bucket"%string _ _).
  reflexivity.
Defined.

(** ** Tags of other keys, and the order of a map *)

Lemma Get_filter_key (tag : StructTag) (key : string) :
  Get tag key = Get (filter (fun kv => String.eqb (fst kv) key) tag) key.
Proof.
  induction tag as [|[k v] tag IH]; [reflexivity|].
  cbn [Get filter fst]. destruct (String.eqb k key) eqn:Hk.
  - cbn [Get]. now rewrite Hk.
  - exact IH.
Qed.

(** X13: only the [remoteconfig] key of a struct tag counts.  Whatever a
    field's tag says under other keys ([json], [yaml], ...), before or
    after, with or without the word [optional] in it, the annotation read
    is the same as without those keys. *)
Theorem tags_under_other_keys_are_ignored (f : field) (tag : StructTag) :
  readTags (withTag tag f) =
  readTags (withTag
              (filter (fun kv => String.eqb (fst kv) "remoteconfig") tag) f).
Proof.
  unfold readTags, withTag. cbn [Tag]. now rewrite <- Get_filter_key.
Qed.

Lemma map_ok_iff (name : string) (es : list (value * value)) :
  snd (validateConfigWithReflection (Map name (Some es))) = Ok <->
  es <> [] /\
  Forall (fun kv => valuePasses validateConfigWithReflection (snd kv)) es.
Proof.
  cbn [validateConfigWithReflection]. unfold log, handleMap. cbn [snd].
  split.
  - destruct es as [|e es]; cbn [Len List.length Nat.leb snd ret];
      [discriminate|].
    intros Hok. split; [discriminate | now apply entriesLoop_ok_all_pass].
  - intros [Hne Hall]. destruct es as [|e es]; [congruence|].
    cbn [Len List.length Nat.leb]. rewrite <- (app_nil_r (e :: es)).
    rewrite (entriesLoop_past _ _ _ Hall). reflexivity.
Qed.

(** X14: whether a map validates does not depend on the order in which
    its keys come out of [MapKeys]: with the same entries in another
    order, validation succeeds in the one exactly when it does in the
    other.  (Which failure is reported can depend on the order; that
    there is one cannot.) *)
Theorem map_success_is_independent_of_key_order
    (name : string) (es es' : list (value * value)) :
  Permutation es es' ->
  (snd (validateConfigWithReflection (Map name (Some es))) = Ok <->
   snd (validateConfigWithReflection (Map name (Some es'))) = Ok).
Proof.
  intros Hperm. rewrite !map_ok_iff. split; intros [Hne Hall]; split.
  - intros ->. apply Permutation_sym, Permutation_nil in Hperm.
    contradiction.
  - exact (Permutation_Forall Hperm Hall).
  - intros ->. apply Permutation_nil in Hperm. contradiction.
  - exact (Permutation_Forall (Permutation_sym Hperm) Hall).
Qed.

Lemma map_success_is_independent_of_key_order_witness :
  snd (validateConfigWithReflection
         (Map "" (Some [(Sample.str "a", Sample.strPtr "x");
                        (Sample.str "b", Sample2.host Pass "h")]))) = Ok <->
  snd (validateConfigWithReflection
         (Map "" (Some [(Sample.str "b", Sample2.host Pass "h");
                        (Sample.str "a", Sample.strPtr "x")]))) = Ok.
Proof.
  apply map_success_is_independent_of_key_order. apply perm_swap.
Defined.

(** ** The accepted graphs, and the graphs that cannot panic *)

Lemma Forall_iff {A : Type} (P Q : A -> Prop) (l : list A) :
  Forall (fun x => P x <-> Q x) l -> (Forall P l <-> Forall Q l).
Proof.
  induction 1 as [|x l Hx _ IH]; [split; constructor|].
  split; intros Hall; inversion Hall; subst; constructor; tauto.
Qed.

Lemma elemsLoop_ok_iff (V : value -> result) (xs : list value) :
  snd (elemsLoop V xs) = Ok <-> Forall (valuePasses V) xs.
Proof.
  split; [apply elemsLoop_ok_all_pass|].
  intros Hall. rewrite <- (app_nil_r xs).
  rewrite (elemsLoop_past _ _ _ Hall). reflexivity.
Qed.

Lemma handleStruct_ok_iff (V : value -> result) (fields : list field) :
  snd (handleStruct V fields) = Ok <-> Forall (fieldPasses V) fields.
Proof.
  split; [apply handleStruct_ok_all_pass|].
  intros Hall. rewrite <- (app_nil_r fields).
  rewrite (handleStruct_past _ _ _ Hall). reflexivity.
Qed.

Lemma handleArraySlice_ok_iff (V : value -> result) (c : value)
    (name : string) (elems : option (list value)) :
  snd (handleArraySlice V c name elems) = Ok <->
  exists x xs, elems = Some (x :: xs) /\ Forall (valuePasses V) (x :: xs).
Proof.
  unfold handleArraySlice, log. cbn [snd].
  destruct elems as [[|x xs]|]; cbn [Len List.length Nat.leb snd ret].
  - split; [discriminate | intros [x [xs [Heq _]]]; discriminate].
  - rewrite elemsLoop_ok_iff. split.
    + intros Hall. now exists x, xs.
    + now intros [y [ys [[= <- <-] Hall]]].
  - split; [discriminate | intros [x [xs [Heq _]]]; discriminate].
Qed.

(** X15: validation returns nil on exactly the graphs described by
    [Valid]: nothing more is required of a configuration than what that
    description says, and nothing less. *)
Theorem validation_succeeds_iff_valid (c : value) :
  snd (validateConfigWithReflection c) = Ok <-> Valid c.
Proof.
  induction c as [| elem validater | elem validater t IHt | name fields IHf
                 | name | name xs IHx | name xs IHx | name | name es IHe
                 | name s | k name bits] using value_nested_ind;
    cbn [validateConfigWithReflection]; unfold log; cbn [snd].
  - split; [discriminate | intros Hv; inversion Hv].
  - destruct validater as [[| err |]|]; simpl;
      (split; [try discriminate; intros _; constructor
              | intros Hv; inversion Hv; reflexivity]).
  - destruct validater as [[| err |]|]; simpl.
    + split; [intros _; constructor | reflexivity].
    + split; [discriminate | intros Hv; inversion Hv].
    + split; [discriminate | intros Hv; inversion Hv].
    + rewrite snd_wrapErr. split.
      * intros Hok. constructor. apply IHt.
        destruct (snd (validateConfigWithReflection t));
          [reflexivity | discriminate | discriminate].
      * intros Hv. inversion Hv as [| ? ? Ht | | | | | |]; subst.
        apply IHt in Ht. now rewrite Ht.
  - rewrite handleStruct_ok_iff.
    assert (Heq : Forall (fieldPasses validateConfigWithReflection) fields <->
              Forall (fun f =>
                (IsNil f = Some true /\ Optional (readTags f) = true) \/
                (IsNil f = Some false /\ Exported f = true /\
                 Valid (Value f))) fields).
    { apply Forall_iff. eapply Forall_impl; [|exact IHf].
      intros f Hf. unfold fieldPasses. cbv beta in Hf. tauto. }
    rewrite Heq. split; [apply Valid_struct|].
    intros Hv. now inversion Hv.
  - split; [discriminate | intros Hv; inversion Hv].
  - rewrite handleArraySlice_ok_iff. split.
    + intros [x [ys [[= ->] Hall]]]. apply Valid_slice.
      now apply (Forall_iff _ _ _ IHx).
    + intros Hv. inversion Hv as [| | | ? x ys Hall | | | |]; subst.
      exists x, ys. split; [reflexivity|]. now apply (Forall_iff _ _ _ IHx).
  - rewrite handleArraySlice_ok_iff. split.
    + intros [x [ys [[= ->] Hall]]]. apply Valid_array.
      now apply (Forall_iff _ _ _ IHx).
    + intros Hv. inversion Hv as [| | | | ? x ys Hall | | |]; subst.
      exists x, ys. split; [reflexivity|]. now apply (Forall_iff _ _ _ IHx).
  - split; [discriminate | intros Hv; inversion Hv].
  - unfold handleMap.
    destruct es as [|e es]; cbn [Len List.length Nat.leb snd ret].
    + split; [discriminate | intros Hv; inversion Hv].
    + split.
      * intros Hok. apply entriesLoop_ok_all_pass in Hok.
        apply Valid_map. apply (Forall_iff _ _ _ IHe). exact Hok.
      * intros Hv. inversion Hv as [| | | | | ? ? ? Hall | |]; subst.
        apply (Forall_iff _ _ _ IHe) in Hall.
        rewrite <- (app_nil_r (e :: es)).
        rewrite (entriesLoop_past _ _ _ Hall). reflexivity.
  - unfold handleString. split.
    + destruct (String.eqb_spec name "string") as [-> |]; [|discriminate].
      destruct (String.eqb_spec s ""); [discriminate|].
      intros _. now constructor.
    + intros Hv. inversion Hv as [| | | | | | ? Hs |]; subst.
      cbn. destruct (String.eqb_spec s ""); [contradiction | reflexivity].
  - split; [intros _; constructor | reflexivity].
Qed.

Lemma elemsLoop_returns (V : value -> result) (xs : list value) :
  Forall (fun x => returns (snd (V x))) xs -> returns (snd (elemsLoop V xs)).
Proof.
  induction 1 as [|x xs Hx _ IH]; [exact I|].
  cbn [elemsLoop]. rewrite snd_andThen.
  destruct (snd (V x)); [exact IH | exact I | exact Hx].
Qed.

Lemma handleStruct_returns (V : value -> result) (fields : list field) :
  Forall (fun f => IsNil f = Some true \/
                   (IsNil f = Some false /\ Exported f = true /\
                    returns (snd (V (Value f))))) fields ->
  returns (snd (handleStruct V fields)).
Proof.
  induction 1 as [|f fs Hf _ IH]; [exact I|].
  rewrite snd_handleStruct_cons.
  destruct Hf as [Hnil | [Hnil [Hexp Hv]]]; rewrite Hnil.
  - destruct (Optional (readTags f)); [exact IH | exact I].
  - rewrite Hexp. destruct (snd (V (Value f))); [exact IH | exact I | exact Hv].
Qed.

(** X16: on a graph of the shape the engine is made for, validation never
    panics: it returns nil or an error.  That shape is: record fields of a
    kind that has nil and, when set, exported; no nil pointer without
    [Validate] among the values gone into; strings of the built-in type;
    no empty interface; no [Validate] that panics. *)
Theorem shaped_graph_never_panics (c : value) :
  Shaped c -> returns (snd (validateConfigWithReflection c)).
Proof.
  induction c as [| elem validater | elem validater t IHt | name fields IHf
                 | name | name xs IHx | name xs IHx | name | name es IHe
                 | name s | k name bits] using value_nested_ind;
    intros Hs; cbn [validateConfigWithReflection]; unfold log; cbn [snd].
  - inversion Hs.
  - inversion Hs as [? v ? Hv | | | | | | | | |]; subst.
    destruct v; simpl; [exact I | exact I | congruence].
  - inversion Hs as [? v ? Hv | ? ? Ht | | | | | | | |]; subst.
    + destruct v; simpl; [exact I | exact I | congruence].
    + simpl. rewrite snd_wrapErr. specialize (IHt Ht).
      destruct (snd (validateConfigWithReflection t));
        [exact I | exact I | exact IHt].
  - inversion Hs as [| | ? ? Hall | | | | | | |]; subst.
    apply handleStruct_returns.
    rewrite Forall_forall in *. intros f Hin.
    destruct (Hall f Hin) as [Hnil | [Hnil [Hexp Hv]]]; [now left|].
    right. repeat split; try assumption. exact (IHf f Hin Hv).
  - exact I.
  - inversion Hs as [| | | ? ? Hall | | | | | |]; subst.
    unfold handleArraySlice. cbn [snd].
    destruct (Nat.leb (Len (Some xs)) 0); [exact I|].
    apply elemsLoop_returns. rewrite Forall_forall in *.
    intros x Hin. exact (IHx x Hin (Hall x Hin)).
  - inversion Hs as [| | | | | ? ? Hall | | | |]; subst.
    unfold handleArraySlice. cbn [snd].
    destruct (Nat.leb (Len (Some xs)) 0); [exact I|].
    apply elemsLoop_returns. rewrite Forall_forall in *.
    intros x Hin. exact (IHx x Hin (Hall x Hin)).
  - exact I.
  - inversion Hs as [| | | | | | ? ? Hall | | |]; subst.
    unfold handleMap.
    destruct (Nat.leb (Len (Some es)) 0); [exact I|].
    rewrite entriesLoop_values. apply elemsLoop_returns.
    rewrite Forall_forall in *. intros x Hin.
    apply in_map_iff in Hin. destruct Hin as [kv [<- Hin]].
    exact (IHe kv Hin (Hall kv Hin)).
  - inversion Hs; subst. unfold handleString. cbn.
    destruct (String.eqb s ""); exact I.
  - exact I.
Qed.

Lemma shaped_graph_never_panics_witness :
  returns (snd (validateConfigWithReflection (Sample.server ""))).
Proof.
  apply shaped_graph_never_panics.
  apply Shaped_struct. constructor; [|constructor].
  right. repeat split. apply Shaped_pointer, Shaped_string.
Defined.
